(** * KissFS: the read-only filesystem driver of student-distrib/fs/kissfs.cpp

    A shallow embedding of the driver's runtime operations (open, read,
    readDir, readData, readBlock, write, canSeek, getFileSize) together
    with the part of initFromMemoryAddress that builds the filename index,
    and the properties of these operations.

    Conventions.
    - uint32_t and size_t values (the kernel is a 32-bit x86 one) are
      integers of [Z] in the range [0, 2^32); every arithmetic operation
      of the source that can leave that range is wrapped with [wrap32].
    - int32_t results are produced with [to_int32].
    - C strings and buffers are lists of byte values; a pointer [buf] is
      modelled by the list of the bytes of the object it points into,
      from the pointed byte on, so that [buf + n] is [drop n buf].
    - Indexing an array outside its bounds, or copying past the end of a
      buffer, is undefined behaviour in C++; the model makes it the
      explicit outcome [Fault]. *)

From Stdlib Require Import ZArith Lia Bool.
From stdpp Require Import base option list strings gmap.

Local Open Scope Z_scope.

(** ** Machine integers *)

Definition wrap32 (z : Z) : Z := z mod 2 ^ 32.

Definition to_int32 (z : Z) : Z :=
  let w := wrap32 z in if w <? 2 ^ 31 then w else w - 2 ^ 32.

Definition is_u32 (z : Z) : Prop := 0 <= z < 2 ^ 32.

(** ** Outcomes: a value, or an access outside an object *)

Inductive result (A : Type) : Type :=
| Ok (a : A)
| Fault.
Arguments Ok {A} a.
Arguments Fault {A}.

Definition bind {A B : Type} (r : result A) (k : A -> result B) : result B :=
  match r with
  | Ok a => k a
  | Fault => Fault
  end.

Notation "x <- r ;; k" := (bind r (fun x => k))
  (at level 100, r at next level, right associativity).

(** [arr[i]] for an array held in a list. *)
Definition index {A : Type} (arr : list A) (i : Z) : result A :=
  if i <? 0 then Fault
  else match arr !! Z.to_nat i with
       | Some a => Ok a
       | None => Fault
       end.

(** ** The string and memory primitives the driver calls

    memcpy, strncpy and strlen come from inc/klibs, which is not part of
    the sources at hand; they are given the meaning the C standard gives
    to these names. *)

(** Modelled from the spec: memcpy, which "copies [len] bytes starting at
    imageBase + rawBlockId * BlockSize + blockOffset into buf".
    [memcpy dst src from len] is [memcpy(dst, src + from, len)]: [src] is
    raw mapped memory, read as a function from offsets to bytes; [dst]
    must have room for [len] bytes. *)
Definition memcpy (dst : list Z) (src : Z -> Z) (from len : Z)
  : result (list Z) :=
  if Z.of_nat (length dst) <? len then Fault
  else Ok (map (fun k => src (from + k)) (seqZ 0 len)
             ++ drop (Z.to_nat len) dst).

(** Modelled from the spec: strncpy, by which readDir "reads the
    dentry's filename into buf truncated to len bytes". These are the
    characters [strncpy(dst, src, n)] writes: the characters of [src] up
    to its terminator, then NULs, [n] in all, and no terminator when
    [src] has [n] characters or more. Reading [src] past the end of its
    array before [n] characters or a terminator is a fault. *)
Fixpoint strncpy_chars (src : list Z) (n : nat) : result (list Z) :=
  match n with
  | O => Ok []
  | S n' =>
      match src with
      | [] => Fault
      | c :: src' =>
          if c =? 0 then Ok (repeat 0 n)
          else cs <- strncpy_chars src' n' ;; Ok (c :: cs)
      end
  end.

Definition strncpy (dst src : list Z) (n : Z) : result (list Z) :=
  if Z.of_nat (length dst) <? n then Fault
  else cs <- strncpy_chars src (Z.to_nat n) ;;
       Ok (cs ++ drop (Z.to_nat n) dst).

(** Modelled from the spec: strlen, whose value readDir returns as "the
    copied length". [strlen s] is the number of bytes before the first
    NUL; a fault when the object [s] points into holds no NUL. *)
Fixpoint strlen (s : list Z) : result Z :=
  match s with
  | [] => Fault
  | c :: s' => if c =? 0 then Ok 0 else n <- strlen s' ;; Ok (n + 1)
  end.

(** The characters of the C string held in [s]: the bytes before the
    first NUL (all of [s] when it holds none). *)
Fixpoint c_chars (s : list Z) : list Z :=
  match s with
  | [] => []
  | c :: s' => if c =? 0 then [] else c :: c_chars s'
  end.

(** ** Data model

    dentry_t, inode_t, KissFileDescriptorData and the fields of KissFS
    are declared in inc/fs/kiss.h, which is not part of the sources at
    hand; the records below have the fields kissfs.cpp uses. *)

Definition SPECIAL_DEVICE : Z := 0.
Definition DIRECTORY : Z := 1.
Definition NORMAL_FILE : Z := 2.

(** Modelled from the spec: a Dentry has a "filename (fixed-capacity byte
    buffer, not guaranteed null-terminated)", a filetype and an inode
    index. *)
Record dentry_t : Type := mk_dentry {
  dentry_filename : list Z;   (* char filename[MaxFilenameLength] *)
  dentry_filetype : Z;
  dentry_inode : Z
}.

(** Modelled from the spec: an Inode has a "size (bytes), derived
    numDataBlocks, ordered sequence of data-block ids". *)
Record inode_t : Type := mk_inode {
  inode_size : Z;
  inode_numDataBlocks : Z;
  inode_datablocks : list Z
}.

(** Modelled from the spec: the FileDescriptorState, with a "filetype; if
    Directory, an iteration cursor idx and upper bound max over the
    dentry table; if NormalFile, the resolved inode index".
    [dentryData.base] always points at the filesystem's own dentry table,
    which never changes after initialisation, so readDir reads that
    table. *)
Record KissFileDescriptorData : Type := mk_fd {
  fd_filetype : Z;
  fd_inode : Z;
  fd_idx : Z;     (* dentryData.idx *)
  fd_max : Z      (* dentryData.max *)
}.

(** One invocation of readBlock by readData, with the values of the loop
    variables at the call. *)
Record block_call : Type := mk_call {
  call_datablockId : Z;
  call_offset : Z;        (* realOffset *)
  call_read : Z;          (* the copy goes to buf + read *)
  call_len : Z;
  call_length : Z;        (* length, before it is decremented *)
  call_bytesRemaining : Z (* bytesRemaining, before it is decremented *)
}.

(** What a call of readData leaves behind: the returned value, the
    buffer, and the readBlock calls it made, oldest first. *)
Record read_outcome : Type := mk_outcome {
  out_ret : Z;
  out_buf : list Z;
  out_calls : list block_call
}.

Section KissFS.

(** The block size, a constant of inc/fs/kiss.h. *)
Variable BlockSize : Z.

(** The key type of the filename index and its constructor from a C
    string, both of inc/fs/kiss.h. *)
Context {Filename : Type} `{Countable Filename}.
Variable mkFilename : list Z -> Filename.

(** Modelled from the spec: the state of the filesystem object. The
    index dentryIndexOfFilename is a "hash index from filename to entry
    position": its [get] is the lookup of a finite map, [found] telling
    whether the key is present, and its [put] the insertion, a later
    insertion of a key replacing the earlier one. *)
Record KissFS : Type := mk_fs {
  numDentries : Z;
  numInodes : Z;
  numTotalDataBlocks : Z;
  numBlocks : Z;
  dentries : list dentry_t;
  inodes : list inode_t;
  dentryIndexOfFilename : gmap Filename Z;
  image : Z -> Z          (* the bytes at imageStartingAddress + k *)
}.

(** ** readBlock *)

Definition rawBlockId (fs : KissFS) (datablockId : Z) : Z :=
  wrap32 (datablockId + numInodes fs + 1).

Definition readBlock (fs : KissFS) (datablockId offset : Z) (buf : list Z)
    (len : Z) : result (bool * list Z) :=
  let rawBlockId := rawBlockId fs datablockId in
  if rawBlockId >=? numBlocks fs then Ok (false, buf)
  else
    buf' <- memcpy buf (image fs)
              (wrap32 (rawBlockId * BlockSize) + offset) len ;;
    Ok (true, buf').

(** ** readData *)

(** The variables the block loop of readData updates. *)
Record loop_vars : Type := mk_vars {
  lv_buf : list Z;
  lv_length : Z;
  lv_bytesRemaining : Z;
  lv_read : Z;
  lv_realOffset : Z;
  lv_calls : list block_call
}.

(** The length of the copy of one iteration. *)
Definition block_len (length bytesRemaining : Z) : Z :=
  let len := length in
  let len := if len >? bytesRemaining then bytesRemaining else len in
  let len := if len >? BlockSize then BlockSize else len in
  len.

(** The loop [for (i = startingDataBlock; i < numDataBlocks; i++)]; [n] is
    the number of iterations left before the guard fails, that is
    [numDataBlocks - i]. *)
Fixpoint readData_loop (fs : KissFS) (ino : inode_t) (n : nat) (i : Z)
    (v : loop_vars) : result read_outcome :=
  match n with
  | O => Ok (mk_outcome (to_int32 (lv_read v)) (lv_buf v) (lv_calls v))
  | S n' =>
      datablockId <- index (inode_datablocks ino) i ;;
      if datablockId <=? numTotalDataBlocks fs then
        let len := block_len (lv_length v) (lv_bytesRemaining v) in
        let calls :=
          lv_calls v ++ [mk_call datablockId (lv_realOffset v) (lv_read v)
                           len (lv_length v) (lv_bytesRemaining v)] in
        r <- readBlock fs datablockId (lv_realOffset v)
               (drop (Z.to_nat (lv_read v)) (lv_buf v)) len ;;
        if negb r.1 then Ok (mk_outcome (-1) (lv_buf v) calls)
        else
          let v' :=
            mk_vars (take (Z.to_nat (lv_read v)) (lv_buf v) ++ r.2)
                    (wrap32 (lv_length v - len))
                    (wrap32 (lv_bytesRemaining v - len))
                    (wrap32 (lv_read v + len))
                    0
                    calls in
          if lv_length v' <=? 0
          then Ok (mk_outcome (to_int32 (lv_read v')) (lv_buf v') calls)
          else readData_loop fs ino n' (wrap32 (i + 1)) v'
      else Ok (mk_outcome (-1) (lv_buf v) (lv_calls v))
  end.

(** The guard on the inode index. *)
Definition inode_guard (fs : KissFS) (inode : Z) : bool :=
  inode <=? numInodes fs.

Definition startingDataBlock (offset : Z) : Z := offset / BlockSize.

Definition bytesRemaining (ino : inode_t) (offset : Z) : Z :=
  wrap32 (inode_size ino - offset).

Definition realOffset (offset : Z) : Z := offset mod BlockSize.

Definition readData (fs : KissFS) (inode offset : Z) (buf : list Z)
    (length : Z) : result read_outcome :=
  if inode_guard fs inode then
    ino <- index (inodes fs) inode ;;
    readData_loop fs ino
      (Z.to_nat (inode_numDataBlocks ino - startingDataBlock offset))
      (startingDataBlock offset)
      (mk_vars buf length (bytesRemaining ino offset) 0 (realOffset offset) [])
  else Ok (mk_outcome (-1) buf []).

(** What holds of every readBlock call of a readData for [L] bytes: the
    copy is no longer than the length still requested, which is [L] less
    the bytes already read, and its length is the least of the length
    still requested, the bytes remaining and BlockSize. *)
Definition call_ok (L : Z) (c : block_call) : Prop :=
  0 <= call_read c /\
  0 <= call_len c <= call_length c /\
  call_read c + call_length c = L /\
  call_len c =
    Z.min (Z.min (call_length c) (call_bytesRemaining c)) BlockSize.

(** ** Directories *)

Definition readDir (fs : KissFS) (data : KissFileDescriptorData)
    (offset : Z) (buf : list Z) (len : Z)
  : result (Z * list Z * KissFileDescriptorData) :=
  if fd_idx data >=? fd_max data then Ok (0, buf, data)
  else
    d <- index (dentries fs) (fd_idx data) ;;
    buf' <- strncpy buf (dentry_filename d) len ;;
    let data' := mk_fd (fd_filetype data) (fd_inode data)
                   (wrap32 (fd_idx data + 1)) (fd_max data) in
    n <- strlen buf' ;;
    Ok (to_int32 n, buf', data').

(** The name a dentry holds. *)
Definition dentry_name (d : dentry_t) : list Z :=
  c_chars (dentry_filename d).

(** The filename array of [d] holds a terminator, and the name before it
    is shorter than [len]. *)
Definition name_fits (len : Z) (d : dentry_t) : Prop :=
  (length (dentry_name d) < length (dentry_filename d))%nat /\
  Z.of_nat (length (dentry_name d)) < len /\
  Z.of_nat (length (dentry_filename d)) <= 2 ^ 31.

(** What a read of dentry [d] with room for [len] bytes delivers when
    the name fits: the length of the name, and [len] bytes made of the
    name and NUL padding. *)
Definition dir_entry (len : Z) (d : dentry_t) : Z * list Z :=
  (Z.of_nat (length (dentry_name d)),
   dentry_name d ++ repeat 0 (Z.to_nat len - length (dentry_name d))%nat).

(** Successive readDir calls on one descriptor and one buffer, one call
    per given offset; collects, for each call, the value returned and the
    first [len] bytes of the buffer after it. *)
Fixpoint readDir_seq (fs : KissFS) (data : KissFileDescriptorData)
    (buf : list Z) (len : Z) (offsets : list Z)
  : result (list (Z * list Z) * list Z * KissFileDescriptorData) :=
  match offsets with
  | [] => Ok ([], buf, data)
  | offset :: offsets' =>
      r <- readDir fs data offset buf len ;;
      rs <- readDir_seq fs r.2 r.1.2 len offsets' ;;
      Ok ((r.1.1, take (Z.to_nat len) r.1.2) :: rs.1.1, rs.1.2, rs.2)
  end.

(** ** The descriptor operations *)

(** [fresh] is the content of the object [new KissFileDescriptorData()]
    returns; open leaves the fields it does not assign as they are. The
    result is [None] when open returns false. *)
Definition open (fs : KissFS) (filename : list Z)
    (fresh : KissFileDescriptorData)
  : result (option KissFileDescriptorData) :=
  match dentryIndexOfFilename fs !! mkFilename filename with
  | None => Ok None
  | Some dentryIdx =>
      d <- index (dentries fs) dentryIdx ;;
      if dentry_filetype d =? DIRECTORY
      then Ok (Some (mk_fd (dentry_filetype d) (fd_inode fresh)
                       0 (numDentries fs)))
      else Ok (Some (mk_fd (dentry_filetype d) (dentry_inode d)
                       (fd_idx fresh) (fd_max fresh)))
  end.

Definition read (fs : KissFS) (data : KissFileDescriptorData)
    (offset : Z) (buf : list Z) (len : Z)
  : result (read_outcome * KissFileDescriptorData) :=
  if fd_filetype data =? DIRECTORY then
    r <- readDir fs data offset buf len ;;
    Ok (mk_outcome r.1.1 r.1.2 [], r.2)
  else
    o <- readData fs (fd_inode data) offset buf len ;;
    Ok (o, data).

(** write returns -1; the filesystem and the descriptor it was given
    are passed through. *)
Definition write (fs : KissFS) (data : KissFileDescriptorData)
    (offset : Z) (buf : list Z) (len : Z)
  : Z * (KissFS * KissFileDescriptorData) :=
  (-1, (fs, data)).

Definition canSeek (data : KissFileDescriptorData) : bool :=
  if fd_filetype data =? NORMAL_FILE then true else false.

(** [None] is the source's [Nothing]. *)
Definition getFileSize (fs : KissFS) (data : KissFileDescriptorData)
  : result (option Z) :=
  if negb (fd_filetype data =? NORMAL_FILE) then Ok None
  else ino <- index (inodes fs) (fd_inode data) ;; Ok (Some (inode_size ino)).

(** ** The filename index built by initFromMemoryAddress *)

(** [for (i = 0; i < numDentries; i++) put(Filename(dentries[i].filename), i)],
    from entry [i] on; a later put of the same key replaces the earlier. *)
Fixpoint put_dentries (ds : list dentry_t) (i : Z) (m : gmap Filename Z)
  : gmap Filename Z :=
  match ds with
  | [] => m
  | d :: ds' =>
      put_dentries ds' (i + 1) (<[mkFilename (dentry_filename d) := i]> m)
  end.

(** What initFromMemoryAddress establishes about the tables, besides
    their content. *)
Record initialised (fs : KissFS) : Prop := mk_initialised {
  init_numDentries : numDentries fs = Z.of_nat (length (dentries fs));
  init_numInodes : numInodes fs = Z.of_nat (length (inodes fs));
  init_index : dentryIndexOfFilename fs = put_dentries (dentries fs) 0 ∅
}.

(** ** readDentry *)

(** readDentry by name; [dentry] is the object the caller's pointer
    designates, and the result holds the value returned and the content
    of that object afterwards. *)
Definition readDentry_by_name (fs : KissFS) (fname : list Z)
    (dentry : dentry_t) : result (Z * dentry_t) :=
  match dentryIndexOfFilename fs !! mkFilename fname with
  | None => Ok (-1, dentry)
  | Some dentryIdx =>
      d <- index (dentries fs) dentryIdx ;;
      Ok (0, d)
  end.

(** readDentry by position. *)
Definition readDentry_by_index (fs : KissFS) (idx : Z)
    (dentry : dentry_t) : result (Z * dentry_t) :=
  if idx <=? numDentries fs then
    d <- index (dentries fs) idx ;;
    Ok (0, d)
  else Ok (-1, dentry).

(** ** fstat *)

(** The mode tags of the stat structure, constants of a header that is
    not part of the sources at hand. *)
Variables S_IFDIR S_IFCHR S_IFREG : Z.

(** The two fields of the stat structure that fstat assigns. *)
Record stat : Type := mk_stat {
  st_mode : Z;
  st_size : Z
}.

Definition fstat (fs : KissFS) (data : KissFileDescriptorData) (st : stat)
  : result (Z * stat) :=
  if fd_filetype data =? DIRECTORY then
    Ok (0, mk_stat S_IFDIR (st_size st))
  else if fd_filetype data =? SPECIAL_DEVICE then
    Ok (0, mk_stat S_IFCHR (st_size st))
  else
    ino <- index (inodes fs) (fd_inode data) ;;
    Ok (0, mk_stat S_IFREG (inode_size ino)).

(** ** The content of a file *)

(** The byte at position [p] of the file of inode [ino]: the block list
    of the inode names the data block, and readBlock's translation
    locates that block in the image. *)
Definition file_byte (fs : KissFS) (ino : inode_t) (p : Z) : Z :=
  match inode_datablocks ino !! Z.to_nat (p / BlockSize) with
  | Some id => image fs (rawBlockId fs id * BlockSize + p mod BlockSize)
  | None => 0
  end.

(** The [count] bytes of the file from position [from] on. *)
Definition file_bytes (fs : KissFS) (ino : inode_t) (from count : Z)
  : list Z :=
  map (file_byte fs ino) (seqZ from count).

(** An inode as initFromMemoryAddress decodes it from a sound image:
    numDataBlocks is the size divided by BlockSize, rounded up, the block
    list has that many entries, and each of them passes the two tests
    readData and readBlock make. *)
Record inode_ok (fs : KissFS) (ino : inode_t) : Prop := mk_inode_ok {
  ok_size : is_u32 (inode_size ino);
  ok_count : is_u32 (inode_numDataBlocks ino);
  ok_ceil :
    (inode_numDataBlocks ino - 1) * BlockSize < inode_size ino
    /\ inode_size ino <= inode_numDataBlocks ino * BlockSize;
  ok_list :
    inode_numDataBlocks ino <= Z.of_nat (length (inode_datablocks ino));
  ok_ids : forall (j : nat) id,
    inode_datablocks ino !! j = Some id ->
    Z.of_nat j < inode_numDataBlocks ino ->
    id <= numTotalDataBlocks fs /\ rawBlockId fs id < numBlocks fs
}.

End KissFS.

(** ** A concrete image

    An image in the manner of the end-to-end scenario: a directory ".",
    a file "hello.txt" of ten bytes in data block 0, and one more file,
    "long.bin", of two full blocks, data block 2 followed by data block 1.
    Blocks are 4096 bytes and filenames 32 bytes long, the values of the
    ECE391 image format. *)

Module Sample.

Definition bytes (s : string) : list Z :=
  map (fun a => Z.of_nat (Ascii.nat_of_ascii a)) (String.list_ascii_of_string s).

(** A char array of [n] bytes holding [s], NUL padded. *)
Definition char_array (n : nat) (s : string) : list Z :=
  take n (bytes s ++ repeat 0 n).

Definition BlockSize : Z := 4096.
Definition MaxFilenameLength : nat := 32.

(** Modelled from the spec: the Filename class of inc/fs/kiss.h, which is
    not part of the sources; a filename is the characters of the C string,
    cut at MaxFilenameLength ("max length = MaxFilenameLength",
    "filenames longer than MaxFilenameLength are truncated"). *)
Definition mkFilename (s : list Z) : list Z :=
  take MaxFilenameLength (c_chars s).

Definition sample_dentries : list dentry_t :=
  [ mk_dentry (char_array MaxFilenameLength ".") DIRECTORY 0;
    mk_dentry (char_array MaxFilenameLength "hello.txt") NORMAL_FILE 0;
    mk_dentry (char_array MaxFilenameLength "long.bin") NORMAL_FILE 1 ].

Definition sample_inodes : list inode_t :=
  [ mk_inode 10 1 [0]; mk_inode 8192 2 [2; 1] ].

(** The module is six blocks long. Blocks 0 to 2 hold the boot block and
    the two inodes; the data blocks follow. Data block 0 starts with
    "0123456789"; data blocks 1 and 2 hold, [k] bytes after the start
    of data block 1, the byte [(k + 1) mod 251]. The memory behind the
    module holds bytes of value 170. *)
Definition sample_image (k : Z) : Z :=
  if (3 * BlockSize <=? k) && (k <? 3 * BlockSize + 10)
  then nth (Z.to_nat (k - 3 * BlockSize)) (bytes "0123456789") 0
  else if (4 * BlockSize <=? k) && (k <? 6 * BlockSize)
  then (k - 4 * BlockSize + 1) mod 251
  else if 6 * BlockSize <=? k then 170
  else 0.

Definition fs : @KissFS (list Z) _ _ :=
  mk_fs 3 2 3 6 sample_dentries sample_inodes
    (put_dentries mkFilename sample_dentries 0 ∅) sample_image.

(** The same image with a block list gone bad: the second block of
    "long.bin" is data block 7, beyond numTotalDataBlocks. *)
Definition fs_bad : @KissFS (list Z) _ _ :=
  mk_fs 3 2 3 6 sample_dentries
    [ mk_inode 10 1 [0]; mk_inode 8192 2 [2; 7] ]
    (put_dentries mkFilename sample_dentries 0 ∅) sample_image.

(** The mode tags, with their POSIX values. *)
Definition S_IFDIR : Z := 16384.
Definition S_IFCHR : Z := 8192.
Definition S_IFREG : Z := 32768.

(** A descriptor object as [new] may return it. *)
Definition fresh : KissFileDescriptorData := mk_fd 0 0 0 0.

(** A caller's buffer: [n] bytes of value [c]. *)
Definition buffer (n : nat) (c : Z) : list Z := repeat c n.

End Sample.

(** * Properties *)

(** Replaces the lengths of closed lists by their values. *)
Ltac eval_lengths :=
  repeat match goal with
         | |- context [length ?l] =>
             let n := eval vm_compute in (length l) in
             change (length l) with n
         end.

Section Properties.

Variable BlockSize : Z.
Context {Filename : Type} `{Countable Filename}.
Variable mkFilename : list Z -> Filename.
Variables S_IFDIR S_IFCHR S_IFREG : Z.

Implicit Types (fs : @KissFS Filename _ _) (data fresh : KissFileDescriptorData).
Implicit Types (buf filename : list Z) (ino : inode_t).


(** ** Machine integers and arrays *)

Lemma wrap32_range z : 0 <= wrap32 z < 2 ^ 32.
Proof. unfold wrap32. apply Z.mod_pos_bound. lia. Qed.

Lemma wrap32_small z : 0 <= z < 2 ^ 32 -> wrap32 z = z.
Proof. intros Hz. unfold wrap32. apply Z.mod_small. exact Hz. Qed.

Lemma wrap32_underflow a b :
  0 <= a -> a < b -> b < 2 ^ 32 -> wrap32 (a - b) = 2 ^ 32 - (b - a).
Proof.
  intros Ha Hab Hb. unfold wrap32.
  symmetry. apply (Z.mod_unique_pos _ _ (-1)); lia.
Qed.

Lemma to_int32_nonneg z :
  0 <= z < 2 ^ 32 -> 0 <= to_int32 z -> to_int32 z = z.
Proof.
  intros Hz. unfold to_int32. rewrite (wrap32_small z Hz). cbv zeta.
  destruct (z <? 2 ^ 31) eqn:E; lia.
Qed.

Lemma index_Ok {A} (arr : list A) i a :
  index arr i = Ok a <-> 0 <= i /\ arr !! Z.to_nat i = Some a.
Proof.
  unfold index. destruct (i <? 0) eqn:E.
  - split; [discriminate | lia].
  - destruct (arr !! Z.to_nat i) as [b|].
    + split; [intros [= ->]; split; [lia | reflexivity] | intros [_ [= ->]]; reflexivity].
    + split; [discriminate | intros [_ [=]]].
Qed.

Lemma index_past_end {A} (arr : list A) i :
  Z.of_nat (length arr) <= i -> index arr i = Fault.
Proof.
  intros Hi. unfold index. destruct (i <? 0) eqn:E; [reflexivity |].
  rewrite (lookup_ge_None_2 arr (Z.to_nat i)); [reflexivity | lia].
Qed.

Lemma index_in_range {A} (arr : list A) i :
  0 <= i < Z.of_nat (length arr) -> exists a, index arr i = Ok a.
Proof.
  intros Hi. destruct (lookup_lt_is_Some_2 arr (Z.to_nat i)) as [a Ha]; [lia |].
  exists a. apply index_Ok. split; [lia | exact Ha].
Qed.

(** ** readBlock *)

Lemma length_memcpy dst src from len dst' :
  memcpy dst src from len = Ok dst' -> 0 <= len -> length dst' = length dst.
Proof.
  unfold memcpy. destruct (Z.of_nat (length dst) <? len) eqn:E; [discriminate |].
  intros [= <-] Hlen.
  rewrite length_app, length_map, length_seqZ, length_drop. lia.
Qed.

(** C5. readBlock computes the raw block id as the 32-bit sum
    datablockId + numInodes + 1 (the plain sum when that fits in 32
    bits). When the raw id is at least numBlocks it returns false and
    leaves the buffer as it is. Otherwise, the numBlocks blocks of the
    image being addressable with 32 bits and the buffer having room for
    [len] bytes, it returns true and the buffer then starts with exactly
    the [len] bytes found at image offset
    rawBlockId * BlockSize + offset, the rest of it being unchanged. *)
Theorem readBlock_spec fs datablockId offset buf len :
  let raw := rawBlockId fs datablockId in
  raw = (datablockId + numInodes fs + 1) mod 2 ^ 32 /\
  (0 <= datablockId + numInodes fs + 1 < 2 ^ 32 ->
   raw = datablockId + numInodes fs + 1) /\
  (raw >= numBlocks fs ->
   readBlock BlockSize fs datablockId offset buf len = Ok (false, buf)) /\
  (raw < numBlocks fs ->
   0 <= BlockSize ->
   numBlocks fs * BlockSize < 2 ^ 32 ->
   0 <= len <= Z.of_nat (length buf) ->
   exists buf',
     readBlock BlockSize fs datablockId offset buf len = Ok (true, buf') /\
     length buf' = length buf /\
     take (Z.to_nat len) buf' =
       map (fun k => image fs (raw * BlockSize + offset + k)) (seqZ 0 len) /\
     drop (Z.to_nat len) buf' = drop (Z.to_nat len) buf).
Proof.
  intros raw.
  split; [reflexivity |].
  split; [intros Hfit; apply wrap32_small; exact Hfit |].
  assert (Hraw : 0 <= raw < 2 ^ 32) by apply wrap32_range.
  unfold readBlock. fold raw. split.
  - intros Hge. destruct (raw >=? numBlocks fs) eqn:E; [reflexivity | lia].
  - intros Hlt HB Himg Hlen. destruct (raw >=? numBlocks fs) eqn:E; [lia |].
    assert (Hmul : wrap32 (raw * BlockSize) = raw * BlockSize)
      by (apply wrap32_small; nia).
    rewrite Hmul. unfold memcpy.
    destruct (Z.of_nat (length buf) <? len) eqn:E'; [lia |].
    cbn [bind]. eexists. split; [reflexivity |].
    set (bs := map _ (seqZ 0 len)).
    assert (Hbs : length bs = Z.to_nat len)
      by (unfold bs; rewrite length_map, length_seqZ; reflexivity).
    split; [| split].
    + rewrite length_app, length_drop, Hbs. lia.
    + rewrite take_app_length' by (symmetry; exact Hbs). reflexivity.
    + rewrite drop_app_length' by (symmetry; exact Hbs). reflexivity.
Qed.

(** ** write, canSeek, getFileSize *)

(** C7. Whatever the descriptor (of any filetype and in any state), the
    offset, the buffer and the length, write returns -1 and hands back
    the filesystem and the descriptor unchanged. *)
Theorem write_read_only fs data offset buf len :
  write fs data offset buf len = (-1, (fs, data)).
Proof. reflexivity. Qed.

(** C8. canSeek is true exactly for descriptors of filetype NORMAL_FILE;
    getFileSize returns Nothing for every other filetype, and the size
    field of the descriptor's inode for NORMAL_FILE. *)
Theorem canSeek_getFileSize_spec fs data :
  (canSeek data = true <-> fd_filetype data = NORMAL_FILE) /\
  (fd_filetype data <> NORMAL_FILE -> getFileSize fs data = Ok None) /\
  (forall ino,
     fd_filetype data = NORMAL_FILE ->
     index (inodes fs) (fd_inode data) = Ok ino ->
     getFileSize fs data = Ok (Some (inode_size ino))).
Proof.
  unfold canSeek, getFileSize.
  destruct (fd_filetype data =? NORMAL_FILE) eqn:E.
  - apply Z.eqb_eq in E. split; [tauto |]. split; [congruence |].
    intros ino _ Hino. cbn [negb]. rewrite Hino. reflexivity.
  - apply Z.eqb_neq in E. split; [split; [discriminate | congruence] |].
    split; [reflexivity | congruence].
Qed.

(** read hands a directory descriptor to readDir and any other one to
    readData, with the descriptor's inode index. *)
Lemma read_dispatch fs data offset buf len :
  (fd_filetype data = DIRECTORY ->
   read BlockSize fs data offset buf len =
     (r <- readDir fs data offset buf len ;;
      Ok (mk_outcome r.1.1 r.1.2 [], r.2))) /\
  (fd_filetype data <> DIRECTORY ->
   read BlockSize fs data offset buf len =
     (o <- readData BlockSize fs (fd_inode data) offset buf len ;;
      Ok (o, data))).
Proof.
  unfold read. destruct (fd_filetype data =? DIRECTORY) eqn:E.
  - apply Z.eqb_eq in E. split; [reflexivity | congruence].
  - apply Z.eqb_neq in E. split; [congruence | reflexivity].
Qed.

(** ** open and the filename index *)

Lemma put_dentries_lookup (ds : list dentry_t) i (m : gmap Filename Z) k j :
  put_dentries mkFilename ds i m !! k = Some j ->
  m !! k = Some j \/
  exists d, i <= j /\ ds !! Z.to_nat (j - i) = Some d /\
            mkFilename (dentry_filename d) = k.
Proof.
  revert i m. induction ds as [|d ds IH]; intros i m Hput; cbn in Hput.
  - left. exact Hput.
  - apply IH in Hput as [Hm | (d' & Hle & Hd' & Hk)].
    + destruct (decide (mkFilename (dentry_filename d) = k)) as [Heq | Hne].
      * rewrite Heq, lookup_insert_eq in Hm. injection Hm as <-.
        right. exists d. rewrite Z.sub_diag. split; [lia | split; [reflexivity | exact Heq]].
      * rewrite lookup_insert_ne in Hm by exact Hne. left. exact Hm.
    + right. exists d'. split; [lia |]. split; [| exact Hk].
      replace (Z.to_nat (j - i)) with (S (Z.to_nat (j - (i + 1)))) by lia.
      exact Hd'.
Qed.

Lemma initialised_index_hit fs k j :
  initialised mkFilename fs ->
  dentryIndexOfFilename fs !! k = Some j ->
  exists d, index (dentries fs) j = Ok d /\ mkFilename (dentry_filename d) = k.
Proof.
  intros Hinit Hk. rewrite (init_index _ _ Hinit) in Hk.
  apply put_dentries_lookup in Hk as [Hk | (d & Hle & Hd & Hkey)].
  - rewrite lookup_empty in Hk. discriminate.
  - exists d. split; [| exact Hkey]. apply index_Ok.
    rewrite Z.sub_0_r in Hd. split; [lia | exact Hd].
Qed.

(** C6. On an initialised filesystem, open returns false (NotFound)
    exactly when the filename has no entry in the filename index. When the
    index maps it to a dentry, open succeeds with a descriptor that
    carries that dentry's filetype; for a directory the cursor is 0 and
    the bound numDentries, for any other filetype the descriptor records
    the dentry's inode index. *)
Theorem open_spec fs filename fresh :
  initialised mkFilename fs ->
  (open mkFilename fs filename fresh = Ok None <->
   dentryIndexOfFilename fs !! mkFilename filename = None) /\
  (forall i,
     dentryIndexOfFilename fs !! mkFilename filename = Some i ->
     exists d data,
       index (dentries fs) i = Ok d /\
       mkFilename (dentry_filename d) = mkFilename filename /\
       open mkFilename fs filename fresh = Ok (Some data) /\
       fd_filetype data = dentry_filetype d /\
       (dentry_filetype d = DIRECTORY ->
        fd_idx data = 0 /\ fd_max data = numDentries fs) /\
       (dentry_filetype d <> DIRECTORY -> fd_inode data = dentry_inode d)).
Proof.
  intros Hinit. unfold open. split.
  - destruct (dentryIndexOfFilename fs !! mkFilename filename) as [i|] eqn:Hi.
    + destruct (initialised_index_hit fs _ _ Hinit Hi) as (d & Hd & _).
      rewrite Hd. cbn [bind].
      destruct (dentry_filetype d =? DIRECTORY); split; discriminate.
    + split; reflexivity.
  - intros i Hi. rewrite Hi.
    destruct (initialised_index_hit fs _ _ Hinit Hi) as (d & Hd & Hkey).
    rewrite Hd. cbn [bind]. exists d.
    destruct (dentry_filetype d =? DIRECTORY) eqn:E.
    + apply Z.eqb_eq in E. eexists.
      split; [reflexivity |]. split; [exact Hkey |]. split; [reflexivity |].
      split; [reflexivity |]. split; [intros _; split; reflexivity |].
      intros Hne. contradiction.
    + apply Z.eqb_neq in E. eexists.
      split; [reflexivity |]. split; [exact Hkey |]. split; [reflexivity |].
      split; [reflexivity |]. split; [intros Hdir; contradiction |].
      intros _. reflexivity.
Qed.

(** ** readData: the guard on the inode index *)

Lemma readData_inode_above fs inode offset buf len :
  inode > numInodes fs ->
  readData BlockSize fs inode offset buf len = Ok (mk_outcome (-1) buf []).
Proof.
  intros Hgt. unfold readData, inode_guard.
  destruct (inode <=? numInodes fs) eqn:E; [lia | reflexivity].
Qed.

(** C1, at the inode index one past the table. The table of an
    initialised filesystem has exactly numInodes entries. The guard
    [inode <= numInodes] lets the index numInodes through, and readData
    goes on to read [inodes[numInodes]], outside the table: it does not
    return -1 there. *)
Theorem readData_inode_one_past_end fs offset buf len :
  numInodes fs = Z.of_nat (length (inodes fs)) ->
  inode_guard fs (numInodes fs) = true /\
  readData BlockSize fs (numInodes fs) offset buf len = Fault /\
  readData BlockSize fs (numInodes fs) offset buf len <> Ok (mk_outcome (-1) buf []).
Proof.
  intros Hn.
  assert (Hg : inode_guard fs (numInodes fs) = true)
    by (unfold inode_guard; apply Z.leb_refl).
  assert (Hr : readData BlockSize fs (numInodes fs) offset buf len = Fault).
  { unfold readData. rewrite Hg.
    rewrite index_past_end; [reflexivity | lia]. }
  split; [exact Hg |]. split; [exact Hr |]. rewrite Hr. discriminate.
Qed.

(** ** readData: the remaining-bytes computation *)

(** C4. For a valid inode index and an offset beyond the inode's size,
    the remaining-bytes count readData starts its loop with is the 32-bit
    difference (size - offset) mod 2^32, that is 2^32 - (offset - size):
    a positive number, not 0, and readData does not return an error for
    it but enters its block loop with that count. *)
Theorem readData_bytesRemaining_underflow fs inode ino offset buf len :
  0 <= inode < numInodes fs ->
  index (inodes fs) inode = Ok ino ->
  is_u32 (inode_size ino) ->
  is_u32 offset ->
  offset > inode_size ino ->
  bytesRemaining ino offset = (inode_size ino - offset) mod 2 ^ 32 /\
  bytesRemaining ino offset = 2 ^ 32 - (offset - inode_size ino) /\
  0 < bytesRemaining ino offset /\
  readData BlockSize fs inode offset buf len =
    readData_loop BlockSize fs ino
      (Z.to_nat (inode_numDataBlocks ino - offset / BlockSize))
      (offset / BlockSize)
      (mk_vars buf len ((inode_size ino - offset) mod 2 ^ 32) 0
         (offset mod BlockSize) []).
Proof.
  intros Hinode Hino Hsize Hoff Hgt. unfold is_u32 in *.
  assert (Hu : bytesRemaining ino offset = 2 ^ 32 - (offset - inode_size ino))
    by (unfold bytesRemaining; apply wrap32_underflow; lia).
  split; [reflexivity |]. split; [exact Hu |]. split; [lia |].
  unfold readData, inode_guard.
  destruct (inode <=? numInodes fs) eqn:E; [| lia].
  rewrite Hino. reflexivity.
Qed.

(** ** readData: the block loop *)

Lemma block_len_min length remaining :
  block_len BlockSize length remaining =
  Z.min (Z.min length remaining) BlockSize.
Proof.
  unfold block_len.
  destruct (length >? remaining) eqn:E1;
    [destruct (remaining >? BlockSize) eqn:E2
    | destruct (length >? BlockSize) eqn:E2]; lia.
Qed.



Lemma readData_loop_calls_ok fs ino L n : forall i v r,
  0 <= BlockSize -> L < 2 ^ 32 ->
  0 <= lv_length v -> 0 <= lv_bytesRemaining v -> 0 <= lv_read v ->
  lv_read v + lv_length v = L ->
  Forall (call_ok BlockSize L) (lv_calls v) ->
  readData_loop BlockSize fs ino n i v = Ok r ->
  Forall (call_ok BlockSize L) (out_calls r) /\
  (out_ret r = -1 \/ exists rd, 0 <= rd <= L /\ out_ret r = to_int32 rd).
Proof.
  induction n as [|n IH]; intros i v r HB HL Hlen Hrem Hread Hsum Hcalls Hr;
    cbn [readData_loop] in Hr.
  - injection Hr as <-. split; [exact Hcalls |].
    right. exists (lv_read v). split; [lia | reflexivity].
  - destruct (index (inode_datablocks ino) i) as [id|]; [| discriminate].
    cbn [bind] in Hr.
    destruct (id <=? numTotalDataBlocks fs);
      [| injection Hr as <-; split; [exact Hcalls | left; reflexivity]].
    pose proof (block_len_min (lv_length v) (lv_bytesRemaining v)) as Hmin.
    set (len := block_len BlockSize (lv_length v) (lv_bytesRemaining v)) in *.
    assert (Hcalls' : Forall (call_ok BlockSize L)
              (lv_calls v ++ [mk_call id (lv_realOffset v) (lv_read v) len
                                (lv_length v) (lv_bytesRemaining v)])).
    { apply Forall_app. split; [exact Hcalls |].
      apply Forall_singleton. unfold call_ok. cbn. lia. }
    destruct (readBlock BlockSize fs id _ _ _) as [[ok sub]|]; [| discriminate].
    cbn [bind fst snd] in Hr. destruct ok; cbn [negb] in Hr;
      [| injection Hr as <-; split; [exact Hcalls' | left; reflexivity]].
    assert (Hlen' : wrap32 (lv_length v - len) = lv_length v - len)
      by (apply wrap32_small; lia).
    assert (Hread' : wrap32 (lv_read v + len) = lv_read v + len)
      by (apply wrap32_small; lia).
    cbn [lv_length] in Hr.
    destruct (wrap32 (lv_length v - len) <=? 0).
    + injection Hr as <-. split; [exact Hcalls' |].
      right. exists (lv_read v + len). cbn. rewrite Hread'.
      split; [lia | reflexivity].
    + apply IH in Hr; cbn [lv_length lv_bytesRemaining lv_read lv_calls].
      * exact Hr.
      * exact HB.
      * exact HL.
      * lia.
      * apply wrap32_range.
      * lia.
      * lia.
      * exact Hcalls'.
Qed.

Lemma readData_calls_ok fs inode offset buf len r :
  0 <= BlockSize ->
  is_u32 len ->
  readData BlockSize fs inode offset buf len = Ok r ->
  Forall (call_ok BlockSize len) (out_calls r) /\
  (out_ret r = -1 \/ exists rd, 0 <= rd <= len /\ out_ret r = to_int32 rd).
Proof.
  intros HB [Hlen0 Hlen] Hr. unfold readData in Hr.
  destruct (inode_guard fs inode).
  - destruct (index (inodes fs) inode) as [ino|]; [| discriminate].
    cbn [bind] in Hr.
    apply (readData_loop_calls_ok fs ino len) in Hr;
      cbn [lv_length lv_bytesRemaining lv_read lv_calls].
    + exact Hr.
    + exact HB.
    + exact Hlen.
    + exact Hlen0.
    + apply wrap32_range.
    + lia.
    + lia.
    + apply Forall_nil. exact I.
  - injection Hr as <-. split; [apply Forall_nil; exact I | left; reflexivity].
Qed.



(** C10. Every readBlock call of readData copies at most the length
    still requested at that point, which is the requested length less the
    bytes already read, so decrementing the 32-bit length counter by the
    copied length never wraps; and a non-negative value returned by
    readData is at most the length originally requested. *)
Theorem readData_within_length fs inode offset buf len r :
  0 <= BlockSize ->
  is_u32 len ->
  readData BlockSize fs inode offset buf len = Ok r ->
  Forall (fun c => 0 <= call_len c <= call_length c /\
                   wrap32 (call_length c - call_len c)
                   = call_length c - call_len c /\
                   call_read c + call_length c = len)
         (out_calls r) /\
  (0 <= out_ret r -> out_ret r <= len).
Proof.
  intros HB Hlen Hr.
  destruct (readData_calls_ok fs inode offset buf len r HB Hlen Hr)
    as [Hcalls Hret].
  destruct Hlen as [Hlen0 Hlen]. split.
  - eapply Forall_impl; [exact Hcalls |].
    intros c (Hc0 & Hc1 & Hc2 & _).
    split; [exact Hc1 |]. split; [| exact Hc2].
    apply wrap32_small. lia.
  - intros Hnn. destruct Hret as [Hm1 | (rd & Hrd & Hret)]; [lia |].
    rewrite Hret in Hnn |- *.
    rewrite (to_int32_nonneg rd) by (try exact Hnn; lia). lia.
Qed.

(** ** Directory reads *)

Lemma c_chars_nonzero s : Forall (fun c => c <> 0) (c_chars s).
Proof.
  induction s as [|c s IH]; cbn [c_chars]; [constructor |].
  destruct (c =? 0) eqn:E; [constructor |].
  apply Z.eqb_neq in E. constructor; assumption.
Qed.

Lemma c_chars_terminated s :
  (length (c_chars s) < length s)%nat ->
  exists rest, s = c_chars s ++ 0 :: rest.
Proof.
  induction s as [|c s IH]; cbn [c_chars length]; [lia |].
  destruct (c =? 0) eqn:E.
  - apply Z.eqb_eq in E. subst c. intros _. exists s. reflexivity.
  - cbn [length]. intros Hlt. destruct IH as [rest Hrest]; [lia |].
    exists rest. cbn [app]. f_equal. exact Hrest.
Qed.

Lemma strncpy_chars_name name rest : forall n,
  Forall (fun c => c <> 0) name ->
  (length name < n)%nat ->
  strncpy_chars (name ++ 0 :: rest) n =
    Ok (name ++ repeat 0 (n - length name)%nat).
Proof.
  induction name as [|c name IH]; intros n Hnz Hlt.
  - destruct n as [|n]; [cbn in Hlt; lia |]. reflexivity.
  - destruct n as [|n]; [cbn in Hlt; lia |].
    apply Forall_cons in Hnz as [Hc Hnz]. cbn [app strncpy_chars].
    destruct (c =? 0) eqn:E; [apply Z.eqb_eq in E; contradiction |].
    rewrite IH by (try assumption; cbn in Hlt; lia). reflexivity.
Qed.

Lemma strlen_name name rest :
  Forall (fun c => c <> 0) name ->
  strlen (name ++ 0 :: rest) = Ok (Z.of_nat (length name)).
Proof.
  induction name as [|c name IH]; intros Hnz; [reflexivity |].
  apply Forall_cons in Hnz as [Hc Hnz]. cbn [app strlen].
  destruct (c =? 0) eqn:E; [apply Z.eqb_eq in E; contradiction |].
  rewrite IH by assumption. cbn [bind length]. f_equal. lia.
Qed.

Lemma readDir_terminal fs data offset buf len :
  fd_idx data >= fd_max data ->
  readDir fs data offset buf len = Ok (0, buf, data).
Proof.
  intros Hge. unfold readDir.
  destruct (fd_idx data >=? fd_max data) eqn:E; [reflexivity | lia].
Qed.

Lemma readDir_step fs data offset buf len d :
  fd_idx data < fd_max data ->
  fd_max data < 2 ^ 32 ->
  index (dentries fs) (fd_idx data) = Ok d ->
  name_fits len d ->
  len <= Z.of_nat (length buf) ->
  readDir fs data offset buf len =
    Ok ((dir_entry len d).1,
        (dir_entry len d).2 ++ drop (Z.to_nat len) buf,
        mk_fd (fd_filetype data) (fd_inode data) (fd_idx data + 1)
          (fd_max data)).
Proof.
  intros Hlt Hmax Hd (Hterm & Hfit & Harr) Hroom.
  pose proof (proj1 (proj1 (index_Ok _ _ _) Hd)) as Hidx0.
  unfold readDir. destruct (fd_idx data >=? fd_max data) eqn:E; [lia |].
  rewrite Hd. cbn [bind]. unfold strncpy.
  destruct (Z.of_nat (length buf) <? len) eqn:E'; [lia |].
  unfold dentry_name in *.
  destruct (c_chars_terminated _ Hterm) as [rest Hsplit].
  pose proof (c_chars_nonzero (dentry_filename d)) as Hnz.
  set (name := c_chars (dentry_filename d)) in *.
  rewrite Hsplit at 1.
  rewrite strncpy_chars_name by (try exact Hnz; lia).
  cbn [bind]. unfold dir_entry, dentry_name. fold name. cbn [fst snd].
  destruct (Z.to_nat len - length name)%nat as [|k] eqn:Hk; [lia |].
  cbn [repeat]. rewrite <- app_assoc. cbn [app].
  rewrite strlen_name by exact Hnz. cbn [bind].
  rewrite wrap32_small by lia.
  unfold to_int32. rewrite wrap32_small by lia. cbv zeta.
  destruct (Z.of_nat (length name) <? 2 ^ 31) eqn:E''; [reflexivity | lia].
Qed.

Lemma length_dir_entry len d :
  name_fits len d -> length (dir_entry len d).2 = Z.to_nat len.
Proof.
  intros (_ & Hfit & _). unfold dir_entry. cbn [snd].
  rewrite length_app, repeat_length. lia.
Qed.

Lemma readDir_seq_prefix fs len : forall offsets data buf,
  fd_max data = Z.of_nat (length (dentries fs)) ->
  fd_max data < 2 ^ 32 ->
  0 <= fd_idx data ->
  fd_idx data + Z.of_nat (length offsets) <= fd_max data ->
  Forall (name_fits len)
    (take (length offsets) (drop (Z.to_nat (fd_idx data)) (dentries fs))) ->
  len <= Z.of_nat (length buf) ->
  exists buf',
    readDir_seq fs data buf len offsets =
      Ok (map (dir_entry len)
            (take (length offsets)
               (drop (Z.to_nat (fd_idx data)) (dentries fs))),
          buf',
          mk_fd (fd_filetype data) (fd_inode data)
            (fd_idx data + Z.of_nat (length offsets)) (fd_max data)) /\
    length buf' = length buf.
Proof.
  induction offsets as [|offset offsets IH];
    intros data buf Hmax Hu32 Hidx0 Hlen Hfits Hroom.
  - cbn [length readDir_seq take map]. exists buf. split; [| reflexivity].
    destruct data as [ft ino idx mx]. cbn. repeat f_equal. lia.
  - cbn [length] in Hlen, Hfits |- *.
    destruct (index_in_range (dentries fs) (fd_idx data)) as [d Hd]; [lia |].
    pose proof (proj2 (proj1 (index_Ok _ _ _) Hd)) as Hlook.
    rewrite (drop_S _ _ _ Hlook) in Hfits |- *. cbn [take map] in Hfits |- *.
    apply Forall_cons in Hfits as [Hfit Hfits].
    cbn [readDir_seq].
    rewrite (readDir_step fs data offset buf len d) by (try assumption; lia).
    cbn [bind fst snd].
    set (buf1 := (dir_entry len d).2 ++ drop (Z.to_nat len) buf).
    assert (Hlen1 : length buf1 = length buf).
    { unfold buf1. rewrite length_app, length_drop, length_dir_entry by exact Hfit.
      lia. }
    destruct (IH (mk_fd (fd_filetype data) (fd_inode data)
                    (fd_idx data + 1) (fd_max data)) buf1)
      as (buf' & Hseq & Hlen'); cbn [fd_max fd_idx]; try assumption; try lia.
    { replace (Z.to_nat (fd_idx data + 1)) with (S (Z.to_nat (fd_idx data)))
        by lia. exact Hfits. }
    cbn [fd_filetype fd_inode fd_max fd_idx] in Hseq.
    rewrite Hseq. cbn [bind fst snd].
    exists buf'. split; [| lia].
    replace (Z.to_nat (fd_idx data + 1)) with (S (Z.to_nat (fd_idx data)))
      by lia.
    replace (fd_idx data + 1 + Z.of_nat (length offsets))
      with (fd_idx data + Z.of_nat (S (length offsets))) by lia.
    do 3 f_equal. unfold buf1.
    rewrite take_app_length'
      by (symmetry; apply length_dir_entry; exact Hfit).
    destruct (dir_entry len d). reflexivity.
Qed.

(** X16. What readDir does right. A directory descriptor made by open
    has its cursor at 0 and its bound at numDentries. A read with the
    cursor below the bound, on a dentry whose filename array holds a
    terminated name shorter than [len], into a buffer with room for
    [len] bytes, puts that name into the buffer, NUL padded to [len]
    bytes, returns the length of the name and moves the cursor up by
    one. So as long as the names fit, successive reads, whatever the
    offsets passed, deliver the names in table order, one dentry per
    read. With the cursor at the bound every read returns 0 and changes
    neither buffer nor descriptor. *)
Theorem readDir_iteration fs filename fresh data :
  initialised mkFilename fs ->
  numDentries fs < 2 ^ 32 ->
  open mkFilename fs filename fresh = Ok (Some data) ->
  fd_filetype data = DIRECTORY ->
  (fd_idx data = 0 /\ fd_max data = numDentries fs) /\
  (forall data1 offset buf1 len d,
     fd_idx data1 < fd_max data1 -> fd_max data1 = numDentries fs ->
     index (dentries fs) (fd_idx data1) = Ok d ->
     name_fits len d ->
     len <= Z.of_nat (length buf1) ->
     readDir fs data1 offset buf1 len =
       Ok (Z.of_nat (length (dentry_name d)),
           dentry_name d
             ++ repeat 0 (Z.to_nat len - length (dentry_name d))%nat
             ++ drop (Z.to_nat len) buf1,
           mk_fd (fd_filetype data1) (fd_inode data1) (fd_idx data1 + 1)
             (fd_max data1))) /\
  (forall buf len offsets,
     (length offsets <= length (dentries fs))%nat ->
     Forall (name_fits len) (take (length offsets) (dentries fs)) ->
     len <= Z.of_nat (length buf) ->
     exists buf' data',
       readDir_seq fs data buf len offsets =
         Ok (map (dir_entry len) (take (length offsets) (dentries fs)),
             buf', data') /\
       fd_idx data' = Z.of_nat (length offsets) /\
       fd_max data' = numDentries fs) /\
  (forall data1 offset buf1 len1,
     fd_idx data1 >= fd_max data1 ->
     readDir fs data1 offset buf1 len1 = Ok (0, buf1, data1)).
Proof.
  intros Hinit Hu32 Hopen Hdir.
  assert (Hcur : fd_idx data = 0 /\ fd_max data = numDentries fs).
  { unfold open in Hopen.
    destruct (dentryIndexOfFilename fs !! mkFilename filename) as [i|];
      [| discriminate].
    destruct (index (dentries fs) i) as [d|]; [| discriminate].
    cbn [bind] in Hopen.
    destruct (dentry_filetype d =? DIRECTORY) eqn:E.
    - injection Hopen as <-. split; reflexivity.
    - injection Hopen as <-. cbn [fd_filetype] in Hdir.
      apply Z.eqb_neq in E. contradiction. }
  destruct Hcur as [Hidx Hmax].
  pose proof (init_numDentries _ _ Hinit) as Hnum.
  split; [split; assumption |]. split; [| split].
  - intros data1 offset buf1 len d Hlt Hmax1 Hd Hfit Hroom1.
    rewrite (readDir_step fs data1 offset buf1 len d)
      by (try assumption; lia).
    unfold dir_entry. cbn [fst snd]. rewrite <- app_assoc. reflexivity.
  - intros buf len offsets Hoffs Hfits Hroom.
    destruct (readDir_seq_prefix fs len offsets data buf)
      as (buf' & Hseq & _); try assumption; try lia.
    { rewrite Hidx. cbn [Z.to_nat drop]. exact Hfits. }
    rewrite Hidx in Hseq. cbn [Z.to_nat drop] in Hseq.
    eexists. eexists. split; [exact Hseq |].
    cbn [fd_idx fd_max]. split; [lia | exact Hmax].
  - intros data1 offset buf1 len1 Hge. apply readDir_terminal. exact Hge.
Qed.

(** * Further properties *)

(** ** readDentry *)

(** X1. readDentry by position returns -1 and leaves the caller's
    dentry untouched for a position above numDentries, and delivers the
    dentry of the table for a position below numDentries; the position
    numDentries itself passes the test [index <= numDentries] and makes
    it read one entry past the table. *)
Theorem readDentry_by_index_bounds fs idx dentry :
  numDentries fs = Z.of_nat (length (dentries fs)) ->
  (idx > numDentries fs ->
   readDentry_by_index fs idx dentry = Ok (-1, dentry)) /\
  (0 <= idx < numDentries fs ->
   exists d, dentries fs !! Z.to_nat idx = Some d /\
             readDentry_by_index fs idx dentry = Ok (0, d)) /\
  (idx = numDentries fs -> readDentry_by_index fs idx dentry = Fault).
Proof.
  intros Hnum. unfold readDentry_by_index. split; [| split].
  - intros Hgt. destruct (idx <=? numDentries fs) eqn:E; [lia | reflexivity].
  - intros Hin. destruct (idx <=? numDentries fs) eqn:E; [| lia].
    destruct (index_in_range (dentries fs) idx) as [d Hd]; [lia |].
    exists d. rewrite Hd. split; [| reflexivity].
    exact (proj2 (proj1 (index_Ok _ _ _) Hd)).
  - intros ->. rewrite Z.leb_refl.
    rewrite index_past_end by lia. reflexivity.
Qed.

(** X2. readDentry by name and open decide on the same lookup: the one
    returns -1 exactly when the other returns false, and when readDentry
    delivers a dentry, open gives a descriptor with that dentry's
    filetype, and with its inode index unless it is a directory. *)
Theorem readDentry_by_name_agrees_with_open fs fname dentry fresh :
  (readDentry_by_name mkFilename fs fname dentry = Ok (-1, dentry) <->
   open mkFilename fs fname fresh = Ok None) /\
  (forall d,
     readDentry_by_name mkFilename fs fname dentry = Ok (0, d) ->
     exists data,
       open mkFilename fs fname fresh = Ok (Some data) /\
       fd_filetype data = dentry_filetype d /\
       (dentry_filetype d <> DIRECTORY -> fd_inode data = dentry_inode d)).
Proof.
  unfold readDentry_by_name, open.
  destruct (dentryIndexOfFilename fs !! mkFilename fname) as [i|].
  - destruct (index (dentries fs) i) as [d0|]; cbn [bind].
    + split.
      * split; [discriminate |].
        destruct (dentry_filetype d0 =? DIRECTORY); discriminate.
      * intros d [= <-].
        destruct (dentry_filetype d0 =? DIRECTORY) eqn:E.
        -- apply Z.eqb_eq in E. eexists. split; [reflexivity |].
           split; [reflexivity | intros Hne; contradiction].
        -- eexists. split; [reflexivity |]. split; reflexivity.
    + split; [split; discriminate | discriminate].
  - split; [split; reflexivity | discriminate].
Qed.

(** ** The filename index *)

Lemma put_dentries_keeps (ds : list dentry_t) : forall i (m : gmap Filename Z) k,
  is_Some (m !! k) -> is_Some (put_dentries mkFilename ds i m !! k).
Proof.
  induction ds as [|d ds IH]; intros i m k Hk; cbn [put_dentries];
    [exact Hk |].
  apply IH. destruct (decide (mkFilename (dentry_filename d) = k)) as [<- | Hne].
  - rewrite lookup_insert_eq. eexists. reflexivity.
  - rewrite lookup_insert_ne by exact Hne. exact Hk.
Qed.

Lemma put_dentries_absent (ds : list dentry_t) : forall i (m : gmap Filename Z) k,
  Forall (fun d => mkFilename (dentry_filename d) <> k) ds ->
  put_dentries mkFilename ds i m !! k = m !! k.
Proof.
  induction ds as [|d ds IH]; intros i m k Hall; cbn [put_dentries];
    [reflexivity |].
  apply Forall_cons in Hall as [Hd Hall].
  rewrite IH by exact Hall. apply lookup_insert_ne. exact Hd.
Qed.

(** The entry of a key is the last of the positions that hold it. *)
Lemma put_dentries_last (ds : list dentry_t) : forall i (m : gmap Filename Z) k j,
  put_dentries mkFilename ds i m !! k = Some j ->
  forall (p : nat) d,
    ds !! p = Some d -> mkFilename (dentry_filename d) = k ->
    i + Z.of_nat p <= j.
Proof.
  induction ds as [|d0 ds IH]; intros i m k j Hput p d Hp Hk;
    [rewrite lookup_nil in Hp; discriminate |].
  cbn [put_dentries] in Hput. destruct p as [|p]; cbn in Hp.
  - injection Hp as ->.
    apply put_dentries_lookup in Hput as [Hm | (d' & Hle & _)]; [| lia].
    rewrite Hk, lookup_insert_eq in Hm. injection Hm as <-. lia.
  - specialize (IH _ _ _ _ Hput p d Hp Hk). lia.
Qed.

(** X3. The filename index of an initialised filesystem maps a key to a
    position exactly when the dentry at that position has the key and no
    later dentry has it: every name of the table is in the index, and of
    two dentries with one name the later one wins. *)
Theorem index_last_write_wins fs k j :
  initialised mkFilename fs ->
  dentryIndexOfFilename fs !! k = Some j <->
  (0 <= j /\
   (exists d, dentries fs !! Z.to_nat j = Some d /\
              mkFilename (dentry_filename d) = k) /\
   forall (p : nat) d,
     dentries fs !! p = Some d -> mkFilename (dentry_filename d) = k ->
     Z.of_nat p <= j).
Proof.
  intros Hinit. rewrite (init_index _ _ Hinit). split.
  - intros Hj.
    pose proof (put_dentries_last _ _ _ _ _ Hj) as Hlast.
    apply put_dentries_lookup in Hj as [Hm | (d & Hle & Hd & Hk)];
      [rewrite lookup_empty in Hm; discriminate |].
    rewrite Z.sub_0_r in Hd. split; [exact Hle |].
    split; [exists d; split; assumption |].
    intros p d' Hp Hk'. specialize (Hlast p d' Hp Hk'). lia.
  - intros (Hj0 & (d & Hd & Hk) & Hlast).
    assert (Hsome : is_Some (put_dentries mkFilename (dentries fs) 0 ∅ !! k)).
    { clear Hlast. revert Hd. generalize (Z.to_nat j) as p.
      generalize (∅ : gmap Filename Z). generalize 0.
      induction (dentries fs) as [|d0 ds IH]; intros i m p Hp;
        [rewrite lookup_nil in Hp; discriminate |].
      cbn [put_dentries]. destruct p as [|p]; cbn in Hp.
      - injection Hp as ->. apply put_dentries_keeps.
        rewrite Hk, lookup_insert_eq. eexists. reflexivity.
      - eapply IH. exact Hp. }
    destruct Hsome as [j' Hj']. rewrite Hj'. f_equal.
    pose proof (put_dentries_last _ _ _ _ _ Hj' _ _ Hd Hk) as Hle1.
    apply put_dentries_lookup in Hj' as [Hm | (d' & Hle & Hd' & Hk')];
      [rewrite lookup_empty in Hm; discriminate |].
    rewrite Z.sub_0_r in Hd'. specialize (Hlast _ _ Hd' Hk'). lia.
Qed.

(** ** fstat *)

(** X4. fstat always returns 0. It tags a directory S_IFDIR and a
    special device S_IFCHR and leaves the size field of the stat
    structure as it found it; every other filetype is tagged S_IFREG with
    the size of the descriptor's inode, the size getFileSize reports for
    a NORMAL_FILE descriptor. *)
Theorem fstat_spec fs data st :
  (fd_filetype data = DIRECTORY ->
   fstat S_IFDIR S_IFCHR S_IFREG fs data st
     = Ok (0, mk_stat S_IFDIR (st_size st))) /\
  (fd_filetype data = SPECIAL_DEVICE ->
   fstat S_IFDIR S_IFCHR S_IFREG fs data st
     = Ok (0, mk_stat S_IFCHR (st_size st))) /\
  (fd_filetype data <> DIRECTORY -> fd_filetype data <> SPECIAL_DEVICE ->
   forall ino, index (inodes fs) (fd_inode data) = Ok ino ->
     fstat S_IFDIR S_IFCHR S_IFREG fs data st
       = Ok (0, mk_stat S_IFREG (inode_size ino))) /\
  (forall n, fd_filetype data = NORMAL_FILE ->
     getFileSize fs data = Ok (Some n) ->
     fstat S_IFDIR S_IFCHR S_IFREG fs data st = Ok (0, mk_stat S_IFREG n)) /\
  (forall ret st', fstat S_IFDIR S_IFCHR S_IFREG fs data st = Ok (ret, st') ->
     ret = 0).
Proof.
  unfold fstat, getFileSize.
  destruct (fd_filetype data =? DIRECTORY) eqn:Ed;
    [apply Z.eqb_eq in Ed | apply Z.eqb_neq in Ed].
  - rewrite Ed. cbn. repeat split; try reflexivity; try discriminate.
    + intros Hne. contradiction.
    + intros ret st' [= <- _]. reflexivity.
  - destruct (fd_filetype data =? SPECIAL_DEVICE) eqn:Es;
      [apply Z.eqb_eq in Es | apply Z.eqb_neq in Es].
    + rewrite Es. cbn. repeat split; try reflexivity; try discriminate.
      * intros _ Hne. contradiction.
      * intros ret st' [= <- _]. reflexivity.
    + split; [intros Hd; contradiction |].
      split; [intros Hs; contradiction |].
      split; [intros _ _ ino Hino; rewrite Hino; reflexivity |].
      split.
      * intros n Hn. rewrite Hn. cbn [Z.eqb negb Pos.eqb NORMAL_FILE].
        destruct (index (inodes fs) (fd_inode data)) as [ino|]; [| discriminate].
        cbn [bind]. intros [= <-]. reflexivity.
      * intros ret st'.
        destruct (index (inodes fs) (fd_inode data)) as [ino|]; [| discriminate].
        cbn [bind]. intros [= <- _]. reflexivity.
Qed.

(** ** readDir: the cursor, the frame, and names that do not fit *)

Lemma length_strncpy_chars src : forall n cs,
  strncpy_chars src n = Ok cs -> length cs = n.
Proof.
  induction src as [|c src IH]; intros [|n] cs Hcs; cbn [strncpy_chars] in Hcs;
    try (injection Hcs as <-; reflexivity); try discriminate.
  destruct (c =? 0).
  - injection Hcs as <-. apply (repeat_length 0 (S n)).
  - destruct (strncpy_chars src n) as [cs'|] eqn:E; [| discriminate].
    cbn [bind] in Hcs. injection Hcs as <-. cbn [length]. f_equal.
    apply IH. exact E.
Qed.

Lemma strncpy_chars_prefix src : forall n,
  (n <= length src)%nat ->
  Forall (fun c => c <> 0) (take n src) ->
  strncpy_chars src n = Ok (take n src).
Proof.
  induction src as [|c src IH]; intros [|n] Hn Hnz; cbn [strncpy_chars take];
    try reflexivity; [cbn in Hn; lia |].
  cbn [take] in Hnz. apply Forall_cons in Hnz as [Hc Hnz].
  destruct (c =? 0) eqn:E; [apply Z.eqb_eq in E; contradiction |].
  rewrite IH by (try exact Hnz; cbn in Hn; lia). reflexivity.
Qed.

Lemma strlen_app_nonzero cs rest :
  Forall (fun c => c <> 0) cs ->
  strlen (cs ++ rest) = (n <- strlen rest ;; Ok (Z.of_nat (length cs) + n)).
Proof.
  induction cs as [|c cs IH]; intros Hnz; cbn [app length].
  - destruct (strlen rest); reflexivity.
  - apply Forall_cons in Hnz as [Hc Hnz]. cbn [strlen].
    destruct (c =? 0) eqn:E; [apply Z.eqb_eq in E; contradiction |].
    rewrite IH by exact Hnz.
    destruct (strlen rest) as [n|]; cbn [bind]; [| reflexivity].
    f_equal. lia.
Qed.

Lemma strlen_bound s n : strlen s = Ok n -> 0 <= n < Z.of_nat (length s).
Proof.
  revert n. induction s as [|c s IH]; intros n Hn; cbn [strlen] in Hn;
    [discriminate |].
  destruct (c =? 0).
  - injection Hn as <-. cbn [length]. lia.
  - destruct (strlen s) as [n'|]; [| discriminate].
    cbn [bind] in Hn. injection Hn as <-.
    specialize (IH n' eq_refl). cbn [length]. lia.
Qed.

(** X5. A readDir call that returns changes of the descriptor only the
    cursor, which stays where it is or moves up by one and never passes
    the bound; and it changes of the buffer only the first [len] bytes. *)
Theorem readDir_cursor_and_frame fs data offset buf len ret buf' data' :
  fd_max data < 2 ^ 32 ->
  0 <= len ->
  readDir fs data offset buf len = Ok (ret, buf', data') ->
  fd_filetype data' = fd_filetype data /\
  fd_inode data' = fd_inode data /\
  fd_max data' = fd_max data /\
  (fd_idx data' = fd_idx data \/ fd_idx data' = fd_idx data + 1) /\
  fd_idx data' <= Z.max (fd_idx data) (fd_max data) /\
  length buf' = length buf /\
  drop (Z.to_nat len) buf' = drop (Z.to_nat len) buf.
Proof.
  intros Hmax Hlen Hr. unfold readDir in Hr.
  destruct (fd_idx data >=? fd_max data) eqn:E.
  - injection Hr as <- <- <-. repeat split; try reflexivity; [left; reflexivity | lia].
  - destruct (index (dentries fs) (fd_idx data)) as [d|] eqn:Hd; [| discriminate].
    pose proof (proj1 (proj1 (index_Ok _ _ _) Hd)) as Hidx0.
    cbn [bind] in Hr. unfold strncpy in Hr.
    destruct (Z.of_nat (length buf) <? len) eqn:E'; [discriminate |].
    destruct (strncpy_chars (dentry_filename d) (Z.to_nat len)) as [cs|] eqn:Hcs;
      [| discriminate].
    apply length_strncpy_chars in Hcs.
    cbn [bind] in Hr.
    destruct (strlen (cs ++ drop (Z.to_nat len) buf)) as [n|]; [| discriminate].
    cbn [bind] in Hr. injection Hr as <- <- <-.
    cbn [fd_filetype fd_inode fd_max fd_idx].
    rewrite wrap32_small by lia.
    split; [reflexivity |]. split; [reflexivity |]. split; [reflexivity |].
    split; [right; reflexivity |]. split; [lia |]. split.
    + rewrite length_app, length_drop, Hcs. lia.
    + rewrite drop_app_length' by (symmetry; exact Hcs). reflexivity.
Qed.

(** X6. When the name of the dentry at the cursor has [len] characters
    or more, readDir puts its first [len] characters into the buffer
    without a terminator and returns [len] plus the length of the string
    that follows them in the caller's memory. *)
Theorem readDir_name_too_long fs data offset buf len d :
  fd_idx data < fd_max data ->
  fd_max data < 2 ^ 32 ->
  index (dentries fs) (fd_idx data) = Ok d ->
  0 <= len <= Z.of_nat (length (dentry_filename d)) ->
  Forall (fun c => c <> 0) (take (Z.to_nat len) (dentry_filename d)) ->
  len <= Z.of_nat (length buf) ->
  readDir fs data offset buf len =
    (n <- strlen (drop (Z.to_nat len) buf) ;;
     Ok (to_int32 (len + n),
         take (Z.to_nat len) (dentry_filename d) ++ drop (Z.to_nat len) buf,
         mk_fd (fd_filetype data) (fd_inode data) (fd_idx data + 1)
           (fd_max data))).
Proof.
  intros Hlt Hmax Hd Hlen Hnz Hroom.
  pose proof (proj1 (proj1 (index_Ok _ _ _) Hd)) as Hidx0.
  unfold readDir. destruct (fd_idx data >=? fd_max data) eqn:E; [lia |].
  rewrite Hd. cbn [bind]. unfold strncpy.
  destruct (Z.of_nat (length buf) <? len) eqn:E'; [lia |].
  rewrite strncpy_chars_prefix by (try exact Hnz; lia). cbn [bind].
  rewrite strlen_app_nonzero by exact Hnz.
  rewrite length_take. rewrite wrap32_small by lia.
  destruct (strlen (drop (Z.to_nat len) buf)) as [n|]; cbn [bind];
    [| reflexivity].
  replace (Z.of_nat (Z.to_nat len `min` length (dentry_filename d)))
    with len by lia.
  reflexivity.
Qed.

(** ** readData: empty requests, the frame, the block offsets *)

(** X7. A readData for no bytes at all still makes the tests of a
    read. An inode index above numInodes gives -1. Otherwise, when the
    offset lies at or beyond the last block it returns 0 with no call;
    when it lies in a block, a block id above numTotalDataBlocks gives -1
    with no readBlock call, a raw block id not below numBlocks gives -1
    after the one readBlock call, and only a block that passes both
    tests gives 0, after one readBlock call of length 0. In every case
    the buffer is left as it is and there is at most one call. *)
Theorem readData_zero_length fs inode offset buf :
  0 <= BlockSize ->
  (inode > numInodes fs ->
   readData BlockSize fs inode offset buf 0 = Ok (mk_outcome (-1) buf [])) /\
  (forall ino,
     inode <= numInodes fs ->
     index (inodes fs) inode = Ok ino ->
     (inode_numDataBlocks ino <= offset / BlockSize ->
      readData BlockSize fs inode offset buf 0 = Ok (mk_outcome 0 buf [])) /\
     (forall id,
        offset / BlockSize < inode_numDataBlocks ino ->
        index (inode_datablocks ino) (offset / BlockSize) = Ok id ->
        let c := mk_call id (offset mod BlockSize) 0 0 0
                   (bytesRemaining ino offset) in
        (id > numTotalDataBlocks fs ->
         readData BlockSize fs inode offset buf 0
           = Ok (mk_outcome (-1) buf [])) /\
        (id <= numTotalDataBlocks fs ->
         rawBlockId fs id >= numBlocks fs ->
         readData BlockSize fs inode offset buf 0
           = Ok (mk_outcome (-1) buf [c])) /\
        (id <= numTotalDataBlocks fs ->
         rawBlockId fs id < numBlocks fs ->
         readData BlockSize fs inode offset buf 0
           = Ok (mk_outcome 0 buf [c])))) /\
  (forall r,
     readData BlockSize fs inode offset buf 0 = Ok r ->
     (out_ret r = 0 \/ out_ret r = -1) /\
     out_buf r = buf /\
     (out_calls r = [] \/
      exists c, out_calls r = [c] /\ call_len c = 0)).
Proof.
  intros HB.
  assert (Hlen0 : forall ino, block_len BlockSize 0 (bytesRemaining ino offset) = 0).
  { intros ino. rewrite block_len_min.
    pose proof (wrap32_range (inode_size ino - offset)).
    unfold bytesRemaining. lia. }
  split; [| split].
  - intros Hgt. unfold readData, inode_guard.
    destruct (inode <=? numInodes fs) eqn:E; [lia | reflexivity].
  - intros ino Hinode Hino.
    assert (Hrun : readData BlockSize fs inode offset buf 0 =
              readData_loop BlockSize fs ino
                (Z.to_nat (inode_numDataBlocks ino - offset / BlockSize))
                (offset / BlockSize)
                (mk_vars buf 0 (bytesRemaining ino offset) 0
                   (offset mod BlockSize) [])).
    { unfold readData, inode_guard.
      destruct (inode <=? numInodes fs) eqn:E; [| lia].
      rewrite Hino. reflexivity. }
    rewrite Hrun. split.
    + intros Hq.
      replace (Z.to_nat (inode_numDataBlocks ino - offset / BlockSize))
        with O by lia.
      reflexivity.
    + intros id Hq Hid c.
      destruct (Z.to_nat (inode_numDataBlocks ino - offset / BlockSize))
        as [|n] eqn:En; [lia |].
      cbn [readData_loop lv_length lv_bytesRemaining lv_read lv_buf lv_calls
             lv_realOffset].
      rewrite Hid, Hlen0. cbn [bind].
      split; [| split].
      * intros Hgt. destruct (id <=? numTotalDataBlocks fs) eqn:E;
          [lia | reflexivity].
      * intros Hle Hraw. destruct (id <=? numTotalDataBlocks fs) eqn:E; [| lia].
        unfold readBlock.
        destruct (rawBlockId fs id >=? numBlocks fs) eqn:E1; [| lia].
        reflexivity.
      * intros Hle Hraw. destruct (id <=? numTotalDataBlocks fs) eqn:E; [| lia].
        unfold readBlock, memcpy.
        destruct (rawBlockId fs id >=? numBlocks fs) eqn:E1; [lia |].
        destruct (Z.of_nat (length (drop (Z.to_nat 0) buf)) <? 0) eqn:E2;
          [apply Z.ltb_lt in E2; lia |].
        reflexivity.
  - intros r Hr. unfold readData in Hr.
    destruct (inode_guard fs inode);
      [| injection Hr as <-; split; [right; reflexivity | split; [reflexivity | left; reflexivity]]].
    destruct (index (inodes fs) inode) as [ino|]; [| discriminate].
    cbn [bind] in Hr.
    destruct (Z.to_nat (inode_numDataBlocks ino - startingDataBlock BlockSize offset))
      as [|n]; cbn [readData_loop] in Hr.
    + injection Hr as <-. cbn. split; [left; reflexivity | split; [reflexivity | left; reflexivity]].
    + destruct (index (inode_datablocks ino) _) as [id|]; [| discriminate].
      cbn [bind] in Hr.
      destruct (id <=? numTotalDataBlocks fs);
        [| injection Hr as <-; split; [right; reflexivity | split; [reflexivity | left; reflexivity]]].
      cbn [lv_length lv_bytesRemaining lv_read lv_buf lv_calls lv_realOffset] in Hr.
      rewrite Hlen0 in Hr. unfold readBlock, memcpy in Hr.
      destruct (rawBlockId fs id >=? numBlocks fs).
      * cbn [bind fst negb] in Hr. injection Hr as <-. cbn.
        split; [right; reflexivity |]. split; [reflexivity |].
        right. eexists. split; reflexivity.
      * destruct (Z.of_nat (length (drop (Z.to_nat 0) buf)) <? 0) eqn:E;
          [apply Z.ltb_lt in E; lia |].
        cbn [bind fst snd negb lv_length] in Hr.
        change (wrap32 (0 - 0) <=? 0) with true in Hr. cbv iota in Hr.
        injection Hr as <-. cbn.
        split; [left; reflexivity |]. split; [reflexivity |].
        right. eexists. split; reflexivity.
Qed.

Lemma readData_loop_offsets fs ino n : forall i v r,
  readData_loop BlockSize fs ino n i v = Ok r ->
  exists rest,
    out_calls r = lv_calls v ++ rest /\
    match rest with
    | [] => True
    | c :: rest' =>
        call_offset c = lv_realOffset v /\
        Forall (fun c' => call_offset c' = 0) rest'
    end.
Proof.
  induction n as [|n IH]; intros i v r Hr; cbn [readData_loop] in Hr.
  - injection Hr as <-. exists []. cbn. rewrite app_nil_r. split; [reflexivity | exact I].
  - destruct (index (inode_datablocks ino) i) as [id|]; [| discriminate].
    cbn [bind] in Hr.
    destruct (id <=? numTotalDataBlocks fs);
      [| injection Hr as <-; exists []; cbn; rewrite app_nil_r;
         split; [reflexivity | exact I]].
    destruct (readBlock BlockSize fs id _ _ _) as [[ok sub]|]; [| discriminate].
    cbn [bind fst snd] in Hr. destruct ok; cbn [negb] in Hr.
    + cbn [lv_length] in Hr. destruct (wrap32 _ <=? 0).
      * injection Hr as <-. eexists. split; [reflexivity |].
        cbn. split; [reflexivity | apply Forall_nil_2].
      * apply IH in Hr as (rest & Hcalls & Hrest).
        cbn [lv_calls lv_realOffset] in Hcalls, Hrest.
        rewrite <- app_assoc in Hcalls. eexists. split; [exact Hcalls |].
        cbn. split; [reflexivity |].
        destruct rest as [|c rest']; [apply Forall_nil_2 |].
        destruct Hrest as [Hc Hrest']. apply Forall_cons_2; assumption.
    + injection Hr as <-. eexists. split; [reflexivity |].
      cbn. split; [reflexivity | apply Forall_nil_2].
Qed.

(** X8. Every readBlock call of a readData but the first starts at the
    beginning of its block and keeps within it; the first starts at
    offset mod BlockSize, so that when the offset is a multiple of
    BlockSize every call satisfies blockOffset + len <= BlockSize. *)
Theorem readData_block_offsets fs inode offset buf len r :
  0 <= BlockSize ->
  is_u32 len ->
  readData BlockSize fs inode offset buf len = Ok r ->
  match out_calls r with
  | [] => True
  | c :: rest =>
      call_offset c = offset mod BlockSize /\
      Forall (fun c' => call_offset c' = 0 /\
                        call_offset c' + call_len c' <= BlockSize) rest
  end /\
  (offset mod BlockSize = 0 ->
   Forall (fun c => call_offset c + call_len c <= BlockSize) (out_calls r)).
Proof.
  intros HB Hlen Hr.
  destruct (readData_calls_ok fs inode offset buf len r HB Hlen Hr)
    as [Hok _].
  assert (Hoff : match out_calls r with
                 | [] => True
                 | c :: rest =>
                     call_offset c = offset mod BlockSize /\
                     Forall (fun c' => call_offset c' = 0) rest
                 end).
  { unfold readData in Hr. destruct (inode_guard fs inode);
      [| injection Hr as <-; exact I].
    destruct (index (inodes fs) inode) as [ino|]; [| discriminate].
    cbn [bind] in Hr.
    apply readData_loop_offsets in Hr as (rest & Hcalls & Hrest).
    cbn [lv_calls lv_realOffset app] in Hcalls, Hrest.
    rewrite Hcalls. exact Hrest. }
  assert (Hlen_le : Forall (fun c => call_len c <= BlockSize) (out_calls r)).
  { eapply Forall_impl; [exact Hok |]. intros c (_ & _ & _ & Hmin). lia. }
  destruct (out_calls r) as [|c rest]; [split; [exact I | intros _; apply Forall_nil_2] |].
  destruct Hoff as [Hc Hrest]. apply Forall_cons in Hlen_le as [Hlc Hlrest].
  assert (Hrest' : Forall (fun c' => call_offset c' = 0 /\
                                     call_offset c' + call_len c' <= BlockSize)
                     rest).
  { rewrite Forall_forall in Hrest, Hlrest |- *. intros c' Hin.
    specialize (Hrest c' Hin). specialize (Hlrest c' Hin). lia. }
  split; [split; assumption |].
  intros Hal. apply Forall_cons_2; [lia |].
  eapply Forall_impl; [exact Hrest' |]. intros c' [_ Hc']. exact Hc'.
Qed.

(** The buffer after one copy of [bytes] to [buf + R]. *)
Lemma copy_frame (buf bytes : list Z) (R : nat) :
  (R + length bytes <= length buf)%nat ->
  let buf1 := take R buf ++ bytes ++ drop (length bytes) (drop R buf) in
  length buf1 = length buf /\
  take R buf1 = take R buf /\
  (forall k, (R + length bytes <= k)%nat -> drop k buf1 = drop k buf) /\
  buf1 = take R buf ++ bytes ++ drop (R + length bytes) buf.
Proof.
  intros Hroom buf1.
  assert (HR : length (take R buf) = R) by (rewrite length_take; lia).
  split; [| split; [| split]].
  - unfold buf1. rewrite !length_app, !length_drop, HR. lia.
  - unfold buf1. apply take_app_length'. symmetry. exact HR.
  - intros k Hk. unfold buf1.
    rewrite drop_app_ge by lia. rewrite HR.
    rewrite drop_app_ge by lia. rewrite !drop_drop. f_equal. lia.
  - unfold buf1. rewrite drop_drop. reflexivity.
Qed.

Lemma readData_loop_frame fs ino n : forall i v r,
  0 <= BlockSize ->
  0 <= lv_length v -> 0 <= lv_bytesRemaining v -> 0 <= lv_read v ->
  lv_read v + lv_length v <= Z.of_nat (length (lv_buf v)) ->
  lv_read v + lv_length v < 2 ^ 32 ->
  readData_loop BlockSize fs ino n i v = Ok r ->
  length (out_buf r) = length (lv_buf v) /\
  take (Z.to_nat (lv_read v)) (out_buf r)
    = take (Z.to_nat (lv_read v)) (lv_buf v) /\
  drop (Z.to_nat (lv_read v + lv_length v)) (out_buf r)
    = drop (Z.to_nat (lv_read v + lv_length v)) (lv_buf v).
Proof.
  induction n as [|n IH]; intros i v r HB Hlen Hrem Hread Hroom H32 Hr;
    cbn [readData_loop] in Hr.
  - injection Hr as <-. cbn. repeat split.
  - destruct (index (inode_datablocks ino) i) as [id|]; [| discriminate].
    cbn [bind] in Hr.
    destruct (id <=? numTotalDataBlocks fs);
      [| injection Hr as <-; cbn; repeat split].
    pose proof (block_len_min (lv_length v) (lv_bytesRemaining v)) as Hmin.
    set (len := block_len BlockSize (lv_length v) (lv_bytesRemaining v)) in *.
    clearbody len. unfold readBlock in Hr.
    destruct (rawBlockId fs id >=? numBlocks fs);
      [cbn [bind fst negb] in Hr; injection Hr as <-; cbn; repeat split |].
    unfold memcpy in Hr. rewrite length_drop in Hr.
    destruct (Z.of_nat (length (lv_buf v) - Z.to_nat (lv_read v)) <? len) eqn:E;
      [discriminate |].
    cbn [bind fst snd negb lv_length] in Hr.
    set (bytes := map _ (seqZ 0 len)) in Hr.
    assert (Hbytes : length bytes = Z.to_nat len)
      by (unfold bytes; rewrite length_map, length_seqZ; reflexivity).
    rewrite <- Hbytes in Hr.
    destruct (copy_frame (lv_buf v) bytes (Z.to_nat (lv_read v)))
      as (Hl1 & Ht1 & Hd1 & _); [lia |].
    set (buf1 := take _ (lv_buf v) ++ bytes ++ _) in *.
    rewrite (wrap32_small (lv_length v - len)) in Hr by lia.
    rewrite (wrap32_small (lv_read v + len)) in Hr by lia.
    destruct (lv_length v - len <=? 0) eqn:E0.
    + injection Hr as <-. cbn [out_buf lv_buf].
      split; [exact Hl1 |]. split; [exact Ht1 |]. apply Hd1. lia.
    + apply IH in Hr; cbn [lv_length lv_bytesRemaining lv_read lv_buf] in *;
        try lia; try apply wrap32_range.
      destruct Hr as (Hl & Ht & Hd).
      split; [lia |]. split.
      * rewrite <- Ht1.
        replace (Z.to_nat (lv_read v))
          with (Z.to_nat (lv_read v) `min` Z.to_nat (lv_read v + len))%nat by lia.
        rewrite <- !take_take. rewrite Ht. reflexivity.
      * replace (lv_read v + len + (lv_length v - len))
          with (lv_read v + lv_length v) in Hd by lia.
        rewrite Hd. apply Hd1. lia.
Qed.

(** X9. A readData that returns, into a buffer with room for the
    requested length, leaves the length of the buffer and every byte
    from position [len] on as they were, also when it returns -1 after
    some copies. *)
Theorem readData_frame fs inode offset buf len r :
  0 <= BlockSize ->
  is_u32 len ->
  len <= Z.of_nat (length buf) ->
  readData BlockSize fs inode offset buf len = Ok r ->
  length (out_buf r) = length buf /\
  drop (Z.to_nat len) (out_buf r) = drop (Z.to_nat len) buf.
Proof.
  intros HB [Hlen0 Hlen] Hroom Hr. unfold readData in Hr.
  destruct (inode_guard fs inode); [| injection Hr as <-; split; reflexivity].
  destruct (index (inodes fs) inode) as [ino|]; [| discriminate].
  cbn [bind] in Hr.
  apply readData_loop_frame in Hr;
    cbn [lv_length lv_bytesRemaining lv_read lv_buf] in *;
    try lia; try apply wrap32_range.
  destruct Hr as (Hl & _ & Hd). split; [exact Hl | exact Hd].
Qed.

(** ** readData: the bytes delivered *)

Lemma map_fmap {A B : Type} (f : A -> B) (l : list A) : map f l = f <$> l.
Proof. induction l as [|a l IH]; [reflexivity |]. cbn. now f_equal. Qed.

Lemma file_bytes_nil fs ino from : file_bytes BlockSize fs ino from 0 = [].
Proof. reflexivity. Qed.

(** The bytes a copy from within one block delivers are those of the
    file. *)
Lemma file_bytes_block fs ino i id ro len :
  0 < BlockSize ->
  0 <= i ->
  inode_datablocks ino !! Z.to_nat i = Some id ->
  0 <= ro ->
  ro + len <= BlockSize ->
  map (fun k => image fs (rawBlockId fs id * BlockSize + ro + k)) (seqZ 0 len)
  = file_bytes BlockSize fs ino (i * BlockSize + ro) len.
Proof.
  intros HB Hi Hid Hro Hfit. unfold file_bytes.
  rewrite <- (Z.add_0_r (i * BlockSize + ro)) at 1.
  rewrite <- (fmap_add_seqZ (i * BlockSize + ro) 0 len).
  rewrite !map_fmap, <- list_fmap_compose.
  apply list_fmap_ext. intros j k Hk.
  apply lookup_seqZ in Hk as [-> Hj]. cbn [compose].
  unfold file_byte.
  assert (Hdiv : (i * BlockSize + ro + (0 + Z.of_nat j)) / BlockSize = i)
    by (symmetry; apply (Z.div_unique_pos _ _ i (ro + Z.of_nat j)); lia).
  assert (Hmod : (i * BlockSize + ro + (0 + Z.of_nat j)) mod BlockSize
                 = ro + Z.of_nat j)
    by (symmetry; apply (Z.mod_unique_pos _ _ i (ro + Z.of_nat j)); lia).
  rewrite Hdiv, Hmod, Hid. f_equal. lia.
Qed.

Lemma file_bytes_app fs ino from n1 n2 :
  0 <= n1 -> 0 <= n2 ->
  file_bytes BlockSize fs ino from n1
    ++ file_bytes BlockSize fs ino (from + n1) n2
  = file_bytes BlockSize fs ino from (n1 + n2).
Proof.
  intros H1 H2. unfold file_bytes.
  rewrite seqZ_app by assumption. rewrite map_app. reflexivity.
Qed.

(** One iteration of the block loop whose copy keeps within its block. *)
Lemma readData_loop_step fs ino n i id buf L rem R ro calls :
  0 < BlockSize ->
  numBlocks fs * BlockSize < 2 ^ 32 ->
  0 <= i ->
  inode_datablocks ino !! Z.to_nat i = Some id ->
  id <= numTotalDataBlocks fs ->
  rawBlockId fs id < numBlocks fs ->
  0 <= L -> 0 <= rem -> 0 <= R ->
  R + L <= Z.of_nat (length buf) ->
  R + L < 2 ^ 32 ->
  0 <= ro ->
  ro + block_len BlockSize L rem <= BlockSize ->
  let len := block_len BlockSize L rem in
  let buf1 := take (Z.to_nat R) buf
                ++ file_bytes BlockSize fs ino (i * BlockSize + ro) len
                ++ drop (Z.to_nat (R + len)) buf in
  let calls1 := calls ++ [mk_call id ro R len L rem] in
  readData_loop BlockSize fs ino (S n) i (mk_vars buf L rem R ro calls) =
    if L - len <=? 0
    then Ok (mk_outcome (to_int32 (R + len)) buf1 calls1)
    else readData_loop BlockSize fs ino n (wrap32 (i + 1))
           (mk_vars buf1 (L - len) (wrap32 (rem - len)) (R + len) 0 calls1).
Proof.
  intros HB Himg Hi Hid Hidok Hraw HL Hrem HR Hroom H32 Hro Hfit len buf1 calls1.
  pose proof (block_len_min L rem) as Hmin. fold len in Hmin, Hfit.
  cbn [readData_loop lv_length lv_bytesRemaining lv_read lv_buf lv_calls
         lv_realOffset].
  replace (index (inode_datablocks ino) i) with (Ok id)
    by (symmetry; apply index_Ok; split; assumption).
  cbn [bind]. destruct (id <=? numTotalDataBlocks fs) eqn:E; [| lia].
  fold len. unfold readBlock.
  pose proof (wrap32_range (id + numInodes fs + 1)) as Hraw0.
  fold (rawBlockId fs id) in Hraw0.
  destruct (rawBlockId fs id >=? numBlocks fs) eqn:E1; [lia |].
  rewrite (wrap32_small (rawBlockId fs id * BlockSize)) by nia.
  unfold memcpy. rewrite length_drop.
  destruct (Z.of_nat (length buf - Z.to_nat R) <? len) eqn:E2;
    [apply Z.ltb_lt in E2; lia |].
  cbn [bind fst snd negb].
  rewrite (file_bytes_block fs ino i id ro len) by (try assumption; lia).
  set (bytes := file_bytes BlockSize fs ino (i * BlockSize + ro) len) in *.
  assert (Hbytes : length bytes = Z.to_nat len)
    by (unfold bytes, file_bytes; rewrite length_map, length_seqZ; reflexivity).
  assert (Hbuf1 : take (Z.to_nat R) buf ++ bytes
                    ++ drop (Z.to_nat len) (drop (Z.to_nat R) buf) = buf1).
  { unfold buf1. rewrite drop_drop. do 3 f_equal. lia. }
  rewrite Hbuf1.
  rewrite (wrap32_small (L - len)) by lia.
  rewrite (wrap32_small (R + len)) by lia.
  reflexivity.
Qed.

(** Arithmetic of one iteration that starts a block. *)
Lemma step_arith L rem BS :
  0 < BS -> 0 <= L -> 0 < rem ->
  let len := Z.min (Z.min L rem) BS in
  let m' := Z.min (L - len) (Z.max 0 (rem - BS)) in
  0 <= len <= L /\ len <= BS /\ len <= rem /\
  (L - len <= 0 -> Z.min L rem = len) /\
  (0 < L - len ->
   rem - len = Z.max 0 (rem - BS) /\
   Z.min L rem = len + m' /\ (len = BS \/ m' = 0) /\ 0 <= m').
Proof. intros HB HL Hrem len m'. subst len m'. lia. Qed.

(** The buffer after a copy of [bytes] to [buf + R], seen by a later
    copy of [more] right behind it. *)
Lemma copy_then_more (buf bytes more : list Z) (R k : nat) :
  (R + length bytes <= length buf)%nat ->
  let buf1 := take R buf ++ bytes ++ drop (R + length bytes) buf in
  length buf1 = length buf /\
  take (R + length bytes) buf1 ++ more ++ drop (R + length bytes + k) buf1
  = take R buf ++ (bytes ++ more) ++ drop (R + (length bytes + k)) buf.
Proof.
  intros Hroom buf1.
  assert (HR : length (take R buf) = R) by (rewrite length_take; lia).
  split.
  - unfold buf1. rewrite !length_app, length_drop, HR. lia.
  - assert (Htk : take (R + length bytes) buf1 = take R buf ++ bytes).
    { unfold buf1. rewrite app_assoc. apply take_app_length'.
      rewrite length_app, HR. reflexivity. }
    assert (Hdr : drop (R + length bytes + k) buf1
                  = drop (R + (length bytes + k)) buf).
    { unfold buf1. rewrite app_assoc.
      rewrite drop_app_ge by (rewrite length_app, HR; lia).
      rewrite length_app, HR, drop_drop. f_equal. lia. }
    rewrite Htk, Hdr, <- !app_assoc. reflexivity.
Qed.

Lemma length_file_bytes fs ino from count :
  length (file_bytes BlockSize fs ino from count) = Z.to_nat count.
Proof. unfold file_bytes. rewrite length_map, length_seqZ. reflexivity. Qed.

(** The loop from the start of block [i] on. *)
Lemma readData_loop_aligned fs ino n : forall i buf L R calls,
  0 < BlockSize ->
  numBlocks fs * BlockSize < 2 ^ 32 ->
  inode_ok BlockSize fs ino ->
  0 <= i ->
  i + Z.of_nat n = inode_numDataBlocks ino ->
  0 <= L -> 0 <= R ->
  R + L <= Z.of_nat (length buf) ->
  R + L < 2 ^ 32 ->
  let m := Z.min L (Z.max 0 (inode_size ino - i * BlockSize)) in
  exists calls',
    readData_loop BlockSize fs ino n i
      (mk_vars buf L (Z.max 0 (inode_size ino - i * BlockSize)) R 0 calls)
    = Ok (mk_outcome (to_int32 (R + m))
            (take (Z.to_nat R) buf
               ++ file_bytes BlockSize fs ino (i * BlockSize) m
               ++ drop (Z.to_nat (R + m)) buf)
            calls').
Proof.
  induction n as [|n IH];
    intros i buf L R calls HB Himg Hok Hi Hn HL HR Hroom H32 m.
  - destruct Hok as [_ _ [_ Hceil] _ _].
    assert (Hm : m = 0).
    { unfold m. clear - Hn Hceil HL.
      replace (inode_numDataBlocks ino) with i in Hceil by lia. lia. }
    rewrite Hm, Z.add_0_r. cbn [readData_loop lv_read lv_buf lv_calls].
    eexists. do 2 f_equal. rewrite file_bytes_nil. cbn [app].
    symmetry. apply take_drop.
  - pose proof Hok as [[Hs0 Hs32] [_ HN32] [Hceil1 Hceil2] Hlist Hids].
    assert (Hia : 0 <= i * BlockSize) by (clear - HB Hi; nia).
    assert (Hpos : i * BlockSize < inode_size ino)
      by (clear - HB Hi Hn Hceil1; nia).
    assert (Hnext : (i + 1) * BlockSize = i * BlockSize + BlockSize) by ring.
    unfold m. clear m.
    rewrite (Z.max_r 0 (inode_size ino - i * BlockSize))
      by (clear - Hpos; lia).
    set (rem := inode_size ino - i * BlockSize).
    assert (Hrem : 0 < rem) by (unfold rem; clear - Hpos; lia).
    assert (Hrem32 : rem < 2 ^ 32) by (unfold rem; clear - Hia Hs32; lia).
    destruct (lookup_lt_is_Some_2 (inode_datablocks ino) (Z.to_nat i))
      as [id Hid]; [clear - Hi Hn Hlist; lia |].
    destruct (Hids _ _ Hid) as [Hidok Hraw]; [clear - Hi Hn; lia |].
    destruct (step_arith L rem BlockSize HB HL Hrem)
      as (Hlen & HlenB & Hlenr & Hdone & Hmore).
    rewrite <- (block_len_min L rem) in Hlen, HlenB, Hlenr, Hdone, Hmore.
    set (len := block_len BlockSize L rem) in *.
    rewrite (readData_loop_step fs ino n i id buf L rem R 0 calls
               HB Himg Hi Hid Hidok Hraw HL (Z.lt_le_incl _ _ Hrem) HR Hroom
               H32 (Z.le_refl 0) HlenB).
    fold len. rewrite Z.add_0_r.
    destruct (L - len <=? 0) eqn:E.
    + apply Z.leb_le in E. rewrite (Hdone E). eexists. reflexivity.
    + apply Z.leb_gt in E.
      destruct (Hmore E) as (Hrem' & Hmm & Hcase & Hm').
      set (m' := Z.min (L - len) (Z.max 0 (rem - BlockSize))) in *.
      rewrite (wrap32_small (i + 1)) by (clear - Hi Hn HN32; lia).
      rewrite (wrap32_small (rem - len)) by (clear - Hlen Hlenr Hrem32; lia).
      rewrite Hrem'.
      set (fb := file_bytes BlockSize fs ino (i * BlockSize) len).
      assert (Hlb : length fb = Z.to_nat len) by apply length_file_bytes.
      assert (HRl : Z.to_nat (R + len) = (Z.to_nat R + length fb)%nat)
        by (rewrite Hlb; apply Z2Nat.inj_add; [exact HR | apply Hlen]).
      rewrite HRl.
      destruct (copy_then_more buf fb
                  (file_bytes BlockSize fs ino ((i + 1) * BlockSize) m')
                  (Z.to_nat R) (Z.to_nat m'))
        as [Hl1 Hshape]; [rewrite Hlb; clear - HR Hlen Hroom; lia |].
      set (buf1 := take (Z.to_nat R) buf ++ fb
                     ++ drop (Z.to_nat R + length fb) buf) in *.
      destruct (IH (i + 1) buf1 (L - len) (R + len)
                  (calls ++ [mk_call id 0 R len L rem]) HB Himg Hok)
        as [calls' Hrun].
      * clear - Hi. lia.
      * clear - Hn. lia.
      * clear - E. lia.
      * clear - HR Hlen. lia.
      * rewrite Hl1. clear - Hroom. lia.
      * clear - H32. lia.
      * replace (inode_size ino - (i + 1) * BlockSize)
          with (rem - BlockSize) in Hrun by (unfold rem; ring).
        fold m' in Hrun. rewrite Hrun. exists calls'. f_equal.
        rewrite Hmm. f_equal; [f_equal; ring |].
        replace (Z.to_nat (R + len + m'))
          with (Z.to_nat R + length fb + Z.to_nat m')%nat
          by (rewrite Hlb; clear - HR Hlen Hm'; lia).
        rewrite HRl, Hshape.
        replace (Z.to_nat (R + (len + m')))
          with (Z.to_nat R + (length fb + Z.to_nat m'))%nat
          by (rewrite Hlb; clear - HR Hlen Hm'; lia).
        do 2 f_equal. unfold fb.
        rewrite <- (file_bytes_app fs ino (i * BlockSize) len m')
          by (try apply Hlen; exact Hm').
        f_equal. destruct Hcase as [Hc | Hc].
        -- rewrite Hnext, Hc. reflexivity.
        -- rewrite Hc, !file_bytes_nil. reflexivity.
Qed.

Lemma readData_safe_read fs inode ino offset buf len :
  0 < BlockSize ->
  numBlocks fs * BlockSize < 2 ^ 32 ->
  inode <= numInodes fs ->
  index (inodes fs) inode = Ok ino ->
  inode_ok BlockSize fs ino ->
  0 <= offset <= inode_size ino ->
  is_u32 len ->
  len <= Z.of_nat (length buf) ->
  (offset mod BlockSize = 0 \/
   Z.min len (inode_size ino - offset) <= BlockSize - offset mod BlockSize) ->
  let m := Z.min len (inode_size ino - offset) in
  exists calls,
    readData BlockSize fs inode offset buf len =
      Ok (mk_outcome (to_int32 m)
            (file_bytes BlockSize fs ino offset m ++ drop (Z.to_nat m) buf)
            calls).
Proof.
  intros HB Himg Hinode Hino Hok Hoff [Hlen0 Hlen] Hroom Hsafe m.
  pose proof Hok as [[Hs0 Hs32] [HN0 HN32] [Hceil1 Hceil2] Hlist Hids].
  unfold readData, inode_guard.
  destruct (inode <=? numInodes fs) eqn:E; [| lia].
  rewrite Hino. cbn [bind].
  unfold startingDataBlock, bytesRemaining, realOffset.
  rewrite (wrap32_small (inode_size ino - offset)) by lia.
  pose proof (Z.div_mod offset BlockSize ltac:(lia)) as Hdm.
  pose proof (Z.mod_pos_bound offset BlockSize HB) as Hro.
  assert (Hq : 0 <= offset / BlockSize) by (apply Z.div_pos; lia).
  set (q := offset / BlockSize) in *. set (ro := offset mod BlockSize) in *.
  assert (Hoffq : offset = q * BlockSize + ro) by lia.
  destruct (Z.to_nat (inode_numDataBlocks ino - q)) as [|n] eqn:En.
  - assert (Hm : m = 0) by (unfold m; nia).
    rewrite Hm. cbn [readData_loop lv_read lv_buf lv_calls].
    eexists. reflexivity.
  - destruct (Z.eq_dec ro 0) as [Hro0 | Hro0].
    + assert (Hrem : inode_size ino - offset
                     = Z.max 0 (inode_size ino - q * BlockSize)) by lia.
      rewrite Hrem, Hro0.
      destruct (readData_loop_aligned fs ino (S n) q buf len 0 [])
        as [calls Hrun]; try assumption; try lia.
      rewrite Hrun. exists calls.
      replace (Z.min len (Z.max 0 (inode_size ino - q * BlockSize)))
        with m by (unfold m; lia).
      replace (q * BlockSize) with offset by lia.
      rewrite !Z.add_0_l. reflexivity.
    + destruct Hsafe as [Hal | Hsafe]; [contradiction |]. fold m in Hsafe.
      destruct (lookup_lt_is_Some_2 (inode_datablocks ino) (Z.to_nat q))
        as [id Hid]; [lia |].
      destruct (Hids _ _ Hid) as [Hidok Hraw]; [lia |].
      pose proof (block_len_min len (inode_size ino - offset)) as Hmin.
      assert (Hbl : block_len BlockSize len (inode_size ino - offset) = m)
        by (unfold m in *; lia).
      rewrite (readData_loop_step fs ino n q id buf len
                 (inode_size ino - offset) 0 ro [])
        by (try assumption; lia).
      rewrite Hbl, <- Hoffq, !Z.add_0_l. cbn [take app].
      destruct (len - m <=? 0) eqn:E0; [eexists; reflexivity |].
      assert (Hn : n = O) by nia. rewrite Hn.
      cbn [readData_loop lv_read lv_buf lv_calls]. eexists. reflexivity.
Qed.

(** X10. A readData on a sound inode, from an offset within the file and
    into a buffer with room, delivers the file: it returns the lesser of
    the requested length and the number of bytes from the offset to the
    end of the file, and the buffer then starts with exactly those bytes
    of the file, its other bytes being unchanged. This holds when the
    offset is a multiple of BlockSize, and also when it is not, provided
    the bytes to deliver end within the block the offset lies in. *)
Theorem readData_content fs inode ino offset buf len :
  0 < BlockSize ->
  numBlocks fs * BlockSize < 2 ^ 32 ->
  inode <= numInodes fs ->
  index (inodes fs) inode = Ok ino ->
  inode_ok BlockSize fs ino ->
  0 <= offset <= inode_size ino ->
  is_u32 len ->
  len <= Z.of_nat (length buf) ->
  (offset mod BlockSize = 0 \/
   Z.min len (inode_size ino - offset) <= BlockSize - offset mod BlockSize) ->
  exists calls,
    readData BlockSize fs inode offset buf len =
      Ok (mk_outcome (to_int32 (Z.min len (inode_size ino - offset)))
            (file_bytes BlockSize fs ino offset
               (Z.min len (inode_size ino - offset))
             ++ drop (Z.to_nat (Z.min len (inode_size ino - offset))) buf)
            calls).
Proof.
  intros HB Himg Hinode Hino Hok Hoff Hlen Hroom Hsafe.
  exact (readData_safe_read fs inode ino offset buf len
           HB Himg Hinode Hino Hok Hoff Hlen Hroom Hsafe).
Qed.

(** X11. On a NORMAL_FILE descriptor with a sound inode, a read at
    offset 0 for as many bytes as getFileSize reports returns that
    number and fills the buffer with the whole file; the descriptor is
    unchanged. *)
Theorem read_whole_file fs data ino buf n :
  0 < BlockSize ->
  numBlocks fs * BlockSize < 2 ^ 32 ->
  numInodes fs = Z.of_nat (length (inodes fs)) ->
  fd_filetype data = NORMAL_FILE ->
  index (inodes fs) (fd_inode data) = Ok ino ->
  inode_ok BlockSize fs ino ->
  getFileSize fs data = Ok (Some n) ->
  n <= Z.of_nat (length buf) ->
  n = inode_size ino /\
  exists calls,
    read BlockSize fs data 0 buf n =
      Ok (mk_outcome (to_int32 n)
            (file_bytes BlockSize fs ino 0 n ++ drop (Z.to_nat n) buf)
            calls,
          data).
Proof.
  intros HB Himg Hnum Hft Hino Hok Hsize Hroom.
  unfold getFileSize in Hsize. rewrite Hft, Hino in Hsize.
  cbn in Hsize. injection Hsize as <-. split; [reflexivity |].
  pose proof (ok_size _ _ _ Hok) as Hs.
  pose proof (proj2 (proj1 (index_Ok _ _ _) Hino)) as Hlook.
  pose proof (proj1 (proj1 (index_Ok _ _ _) Hino)) as Hi0.
  apply lookup_lt_Some in Hlook.
  destruct (readData_safe_read fs (fd_inode data) ino 0 buf (inode_size ino))
    as [calls Hrun]; try assumption; try (unfold is_u32 in *; lia).
  { left. apply Z.mod_0_l. lia. }
  rewrite Z.sub_0_r, Z.min_id in Hrun.
  unfold read. rewrite Hft. cbn [Z.eqb Pos.eqb NORMAL_FILE DIRECTORY].
  rewrite Hrun. cbn [bind]. exists calls. reflexivity.
Qed.

(** ** Names of the table, and blocks that fail the tests *)

Lemma put_dentries_complete (ds : list dentry_t) : forall i (m : gmap Filename Z) p d,
  ds !! p = Some d ->
  is_Some (put_dentries mkFilename ds i m !! mkFilename (dentry_filename d)).
Proof.
  induction ds as [|d0 ds IH]; intros i m p d Hp;
    [rewrite lookup_nil in Hp; discriminate |].
  cbn [put_dentries]. destruct p as [|p]; cbn in Hp.
  - injection Hp as ->. apply put_dentries_keeps.
    rewrite lookup_insert_eq. eexists. reflexivity.
  - eapply IH. exact Hp.
Qed.

(** X12. When the dentries of an initialised filesystem have distinct
    names, every dentry is found under its own name: readDentry by name
    delivers it, and open gives the descriptor made from it. *)
Theorem lookup_by_own_name fs (p : nat) d filename dentry fresh :
  initialised mkFilename fs ->
  NoDup (map (fun d' => mkFilename (dentry_filename d')) (dentries fs)) ->
  dentries fs !! p = Some d ->
  mkFilename filename = mkFilename (dentry_filename d) ->
  readDentry_by_name mkFilename fs filename dentry = Ok (0, d) /\
  open mkFilename fs filename fresh =
    Ok (Some (if dentry_filetype d =? DIRECTORY
              then mk_fd (dentry_filetype d) (fd_inode fresh) 0
                     (numDentries fs)
              else mk_fd (dentry_filetype d) (dentry_inode d)
                     (fd_idx fresh) (fd_max fresh))).
Proof.
  intros Hinit Hnodup Hp Hkey.
  destruct (put_dentries_complete (dentries fs) 0 ∅ p d Hp) as [j Hj].
  rewrite <- (init_index _ _ Hinit), <- Hkey in Hj.
  destruct (initialised_index_hit fs _ _ Hinit Hj) as (d' & Hd' & Hkey').
  apply index_Ok in Hd' as [Hj0 Hlook].
  assert (Hpos : Z.to_nat j = p).
  { eapply NoDup_lookup; [exact Hnodup | |].
    - rewrite map_fmap, list_lookup_fmap, Hlook. cbn. reflexivity.
    - rewrite map_fmap, list_lookup_fmap, Hp. cbn.
      rewrite Hkey', Hkey. reflexivity. }
  rewrite Hpos, Hp in Hlook. injection Hlook as <-.
  assert (Hidx : index (dentries fs) j = Ok d)
    by (apply index_Ok; split; [exact Hj0 | rewrite Hpos; exact Hp]).
  unfold readDentry_by_name, open. rewrite Hj, Hidx. cbn [bind].
  split; [reflexivity |].
  destruct (dentry_filetype d =? DIRECTORY); reflexivity.
Qed.

(** The loop from the start of block [i] on, when the blocks before
    block [g] pass the tests and block [g] does not. *)
Lemma readData_loop_bad_block fs ino (g : nat) idg n : forall i buf L R calls,
  0 < BlockSize ->
  numBlocks fs * BlockSize < 2 ^ 32 ->
  (forall (j : nat) id, inode_datablocks ino !! j = Some id -> (j < g)%nat ->
     id <= numTotalDataBlocks fs /\ rawBlockId fs id < numBlocks fs) ->
  inode_datablocks ino !! g = Some idg ->
  (idg > numTotalDataBlocks fs \/ rawBlockId fs idg >= numBlocks fs) ->
  inode_size ino < 2 ^ 32 ->
  Z.of_nat g * BlockSize < inode_size ino ->
  0 <= i <= Z.of_nat g ->
  Z.of_nat g < i + Z.of_nat n ->
  i + Z.of_nat n < 2 ^ 32 ->
  (Z.of_nat g - i) * BlockSize < L ->
  0 <= R ->
  R + L <= Z.of_nat (length buf) ->
  R + L < 2 ^ 32 ->
  let m := (Z.of_nat g - i) * BlockSize in
  exists calls',
    readData_loop BlockSize fs ino n i
      (mk_vars buf L (inode_size ino - i * BlockSize) R 0 calls)
    = Ok (mk_outcome (-1)
            (take (Z.to_nat R) buf
               ++ file_bytes BlockSize fs ino (i * BlockSize) m
               ++ drop (Z.to_nat (R + m)) buf)
            calls').
Proof.
  induction n as [|n IH];
    intros i buf L R calls HB Himg Hgood Hg Hbad Hs32 Hsize Hi Hn Hn32 HL HR
      Hroom H32 m; [clear - Hi Hn; lia |].
  destruct (Z.eq_dec i (Z.of_nat g)) as [Hig | Hig].
  - assert (Hm : m = 0) by (unfold m; rewrite Hig; ring).
    rewrite Hm, Z.add_0_r.
    assert (Hbuf : take (Z.to_nat R) buf
                     ++ file_bytes BlockSize fs ino (i * BlockSize) 0
                     ++ drop (Z.to_nat R) buf = buf)
      by (rewrite file_bytes_nil; cbn [app]; apply take_drop).
    rewrite Hbuf.
    cbn [readData_loop lv_length lv_bytesRemaining lv_read lv_buf lv_calls
           lv_realOffset].
    replace (index (inode_datablocks ino) i) with (Ok idg)
      by (symmetry; apply index_Ok; split; [apply Hi |];
          rewrite Hig, Nat2Z.id; exact Hg).
    cbn [bind]. destruct (idg <=? numTotalDataBlocks fs) eqn:E;
      [| eexists; reflexivity].
    destruct Hbad as [Hbad | Hbad]; [clear - E Hbad; lia |].
    unfold readBlock.
    destruct (rawBlockId fs idg >=? numBlocks fs) eqn:E1;
      [| clear - E1 Hbad; lia].
    cbn [bind fst negb]. eexists. reflexivity.
  - assert (Hlt : i + 1 <= Z.of_nat g) by (clear - Hi Hig; lia).
    assert (Hia : 0 <= i * BlockSize) by (clear - HB Hi; nia).
    set (m' := (Z.of_nat g - (i + 1)) * BlockSize).
    assert (Hm' : 0 <= m') by (unfold m'; clear - HB Hlt; nia).
    assert (Hmm : m = BlockSize + m') by (unfold m, m'; ring).
    assert (Hnext : (i + 1) * BlockSize = i * BlockSize + BlockSize) by ring.
    set (rem := inode_size ino - i * BlockSize).
    assert (Hremm : m < rem) by (unfold rem, m; clear - Hsize; lia).
    assert (Hrem32 : rem < 2 ^ 32) by (unfold rem; clear - Hia Hs32; lia).
    assert (HmL : m < L) by exact HL.
    clearbody m.
    destruct (lookup_lt_is_Some_2 (inode_datablocks ino) (Z.to_nat i))
      as [id Hid]; [apply lookup_lt_Some in Hg; clear - Hg Hi Hlt; lia |].
    destruct (Hgood _ _ Hid) as [Hidok Hraw]; [clear - Hi Hlt; lia |].
    assert (Hbl : block_len BlockSize L rem = BlockSize)
      by (rewrite block_len_min; clear - HB HmL Hmm Hm' Hremm; lia).
    rewrite (readData_loop_step fs ino n i id buf L rem R 0 calls
               HB Himg (proj1 Hi) Hid Hidok Hraw)
      by (rewrite ?Hbl; clear - HB HL HmL HR Hroom H32 Hmm Hm' Hremm; lia).
    rewrite Hbl, Z.add_0_r.
    destruct (L - BlockSize <=? 0) eqn:E;
      [clear - E HmL Hmm Hm'; lia |].
    rewrite (wrap32_small (i + 1)) by (clear - Hi Hn32; lia).
    rewrite (wrap32_small (rem - BlockSize))
      by (clear - HB Hmm Hm' Hremm Hrem32; lia).
    replace (rem - BlockSize) with (inode_size ino - (i + 1) * BlockSize)
      by (unfold rem; ring).
    set (fb := file_bytes BlockSize fs ino (i * BlockSize) BlockSize).
    assert (Hlb : length fb = Z.to_nat BlockSize) by apply length_file_bytes.
    assert (HRl : Z.to_nat (R + BlockSize) = (Z.to_nat R + length fb)%nat)
      by (rewrite Hlb; apply Z2Nat.inj_add; [exact HR | clear - HB; lia]).
    rewrite HRl.
    destruct (copy_then_more buf fb
                (file_bytes BlockSize fs ino ((i + 1) * BlockSize) m')
                (Z.to_nat R) (Z.to_nat m'))
      as [Hl1 Hshape];
      [rewrite Hlb; clear - HB HR HmL Hroom Hmm Hm'; lia |].
    set (buf1 := take (Z.to_nat R) buf ++ fb
                   ++ drop (Z.to_nat R + length fb) buf) in *.
    destruct (IH (i + 1) buf1 (L - BlockSize) (R + BlockSize)
                (calls ++ [mk_call id 0 R BlockSize L rem])
                HB Himg Hgood Hg Hbad Hs32 Hsize)
      as [calls' Hrun].
    + clear - Hi Hlt. lia.
    + clear - Hn. lia.
    + clear - Hn32. lia.
    + fold m'. clear - HmL Hmm. lia.
    + clear - HB HR. lia.
    + rewrite Hl1. clear - Hroom. lia.
    + clear - H32. lia.
    + fold m' in Hrun. rewrite Hrun. exists calls'. do 2 f_equal.
      replace (Z.to_nat (R + BlockSize + m'))
        with (Z.to_nat R + length fb + Z.to_nat m')%nat
        by (rewrite Hlb; clear - HB HR Hm'; lia).
      rewrite HRl, Hshape, Hmm.
      replace (Z.to_nat (R + (BlockSize + m')))
        with (Z.to_nat R + (length fb + Z.to_nat m'))%nat
        by (rewrite Hlb; clear - HB HR Hm'; lia).
      do 2 f_equal. unfold fb.
      rewrite <- (file_bytes_app fs ino (i * BlockSize) BlockSize m')
        by (try exact Hm'; clear - HB; lia).
      rewrite Hnext. reflexivity.
Qed.

(** X13. No rollback: a readData from the start of block [q] whose
    request reaches block [g], the first of the file's blocks from [q] on
    whose id or raw id fails the tests, returns -1 after it has copied
    the blocks before block [g] into the buffer, and those bytes of the
    file stay there. *)
Theorem readData_bad_block_after_copies fs inode ino (g : nat) idg q buf len :
  0 < BlockSize ->
  numBlocks fs * BlockSize < 2 ^ 32 ->
  inode <= numInodes fs ->
  index (inodes fs) inode = Ok ino ->
  is_u32 (inode_size ino) ->
  is_u32 (inode_numDataBlocks ino) ->
  Z.of_nat g < inode_numDataBlocks ino ->
  Z.of_nat g * BlockSize < inode_size ino ->
  (forall (j : nat) id, inode_datablocks ino !! j = Some id -> (j < g)%nat ->
     id <= numTotalDataBlocks fs /\ rawBlockId fs id < numBlocks fs) ->
  inode_datablocks ino !! g = Some idg ->
  (idg > numTotalDataBlocks fs \/ rawBlockId fs idg >= numBlocks fs) ->
  0 <= q <= Z.of_nat g ->
  (Z.of_nat g - q) * BlockSize < len < 2 ^ 32 ->
  len <= Z.of_nat (length buf) ->
  let m := (Z.of_nat g - q) * BlockSize in
  exists calls,
    readData BlockSize fs inode (q * BlockSize) buf len =
      Ok (mk_outcome (-1)
            (file_bytes BlockSize fs ino (q * BlockSize) m
               ++ drop (Z.to_nat m) buf)
            calls).
Proof.
  intros HB Himg Hinode Hino [Hs0 Hs32] [HN0 HN32] HgN Hsize Hgood Hg Hbad Hq
    Hlen Hroom m.
  unfold readData, inode_guard.
  destruct (inode <=? numInodes fs) eqn:E; [| lia].
  rewrite Hino. cbn [bind].
  unfold startingDataBlock, bytesRemaining, realOffset.
  rewrite Z.div_mul, Z.mod_mul by lia.
  rewrite (wrap32_small (inode_size ino - q * BlockSize)) by nia.
  destruct (readData_loop_bad_block fs ino g idg
              (Z.to_nat (inode_numDataBlocks ino - q)) q buf len 0 [])
    as [calls Hrun]; try assumption; try lia.
  rewrite Hrun. exists calls. rewrite !Z.add_0_l. reflexivity.
Qed.

(** X14. A readData at an offset at or beyond the end of the inode's
    last block makes no iteration of the block loop: it returns 0 with no
    readBlock call and the buffer as it was, whatever the length asked
    for. *)
Theorem readData_past_last_block fs inode ino offset buf len :
  0 < BlockSize ->
  inode <= numInodes fs ->
  index (inodes fs) inode = Ok ino ->
  inode_numDataBlocks ino * BlockSize <= offset ->
  readData BlockSize fs inode offset buf len = Ok (mk_outcome 0 buf []).
Proof.
  intros HB Hinode Hino Hoff. unfold readData, inode_guard.
  destruct (inode <=? numInodes fs) eqn:E; [| lia].
  rewrite Hino. cbn [bind]. unfold startingDataBlock.
  assert (Hq : inode_numDataBlocks ino <= offset / BlockSize)
    by (apply Z.div_le_lower_bound; lia).
  replace (Z.to_nat (inode_numDataBlocks ino - offset / BlockSize))
    with O by lia.
  reflexivity.
Qed.

End Properties.

(** * The properties on the concrete image *)

(** C3, at a [len] shorter than the name. The dentry at cursor 1 holds
    the name "hello.txt". A read with [len = 4] into memory holding
    "abcdXY" copies the four bytes "hell", with no terminator, and leaves
    the rest; strlen then runs on into the caller's bytes and readDir
    returns 6, the length of "hellXY": not the length 4 of the copy, to
    which the name was cut. *)
Theorem readDir_short_len_overreports :
  index (dentries Sample.fs) 1
    = Ok (mk_dentry (Sample.char_array 32 "hello.txt") NORMAL_FILE 0) /\
  readDir Sample.fs (mk_fd DIRECTORY 0 1 3) 0 (Sample.bytes "abcdXY" ++ [0]) 4
    = Ok (6, Sample.bytes "hellXY" ++ [0], mk_fd DIRECTORY 0 2 3) /\
  6 <> Z.min 4 (Z.of_nat (length (Sample.bytes "hello.txt"))).
Proof.
  split; [reflexivity |]. split; [reflexivity |]. cbn. lia.
Qed.

(** C2, at an offset that is not a multiple of BlockSize. Reading 4096
    bytes at offset 1 of the two-block file "long.bin" makes a single
    readBlock call, for data block 2 at block offset 1 with length 4096,
    where the claim has min(4096, 8191, 4096 - 1) = 4095: the call has
    blockOffset + len = 4097 > BlockSize, and the last byte it copies is
    not the first byte of the file's next block (which is 1) but the byte
    behind data block 2, here the first byte behind the module. *)
Theorem readData_unaligned_copy_crosses_block :
  (r <- readData Sample.BlockSize Sample.fs 1 1 (Sample.buffer 4096 7) 4096 ;;
   Ok (out_ret r, out_calls r, drop 4095 (out_buf r)))
  = Ok (4096, [mk_call 2 1 0 4096 4096 8191], [170]) /\
  1 + 4096 > Sample.BlockSize /\
  4096 <> Z.min (Z.min 4096 8191) (Sample.BlockSize - 1) /\
  Sample.sample_image (rawBlockId Sample.fs 1 * Sample.BlockSize) = 1.
Proof.
  split; [vm_compute; reflexivity |].
  split; [unfold Sample.BlockSize; lia |].
  split; [unfold Sample.BlockSize; lia | reflexivity].
Qed.

(** ** Instances on the concrete image *)

Lemma sample_initialised : initialised Sample.mkFilename Sample.fs.
Proof. split; reflexivity. Defined.

Lemma sample_names_fit : Forall (name_fits 32) (dentries Sample.fs).
Proof.
  unfold Sample.fs, Sample.sample_dentries. cbn [dentries].
  repeat (apply Forall_cons_2; [unfold name_fits; eval_lengths; lia |]).
  apply Forall_nil_2.
Defined.

(** readBlock on data block 0 (raw block 3) of the concrete image copies
    the ten bytes of "hello.txt". *)
Lemma readBlock_spec_witness :
  exists buf',
    readBlock Sample.BlockSize Sample.fs 0 0 (Sample.buffer 16 7) 10
      = Ok (true, buf') /\
    length buf' = length (Sample.buffer 16 7) /\
    take (Z.to_nat 10) buf' =
      map (fun k => image Sample.fs
                      (rawBlockId Sample.fs 0 * Sample.BlockSize + 0 + k))
          (seqZ 0 10) /\
    drop (Z.to_nat 10) buf' = drop (Z.to_nat 10) (Sample.buffer 16 7).
Proof.
  apply (readBlock_spec Sample.BlockSize Sample.fs 0 0 (Sample.buffer 16 7) 10).
  - vm_compute. reflexivity.
  - unfold Sample.BlockSize. lia.
  - vm_compute. reflexivity.
  - cbn. lia.
Defined.

(** The descriptor of "hello.txt" can seek and has size 10. *)
Lemma canSeek_getFileSize_spec_witness :
  canSeek (mk_fd NORMAL_FILE 0 0 0) = true /\
  getFileSize Sample.fs (mk_fd NORMAL_FILE 0 0 0) = Ok (Some 10).
Proof.
  destruct (canSeek_getFileSize_spec Sample.fs (mk_fd NORMAL_FILE 0 0 0))
    as (Hseek & _ & Hsize).
  split.
  - apply Hseek. reflexivity.
  - apply (Hsize (mk_inode 10 1 [0])); reflexivity.
Defined.

(** open of a name that is not in the concrete image is NotFound. *)
Lemma open_spec_witness :
  open Sample.mkFilename Sample.fs (Sample.bytes "nope" ++ [0]) Sample.fresh
    = Ok None.
Proof.
  apply (open_spec Sample.mkFilename Sample.fs (Sample.bytes "nope" ++ [0])
           Sample.fresh sample_initialised).
  vm_compute. reflexivity.
Defined.

(** The concrete image has two inodes; readData on inode index 2 passes
    the guard. *)
Lemma readData_inode_one_past_end_witness :
  inode_guard Sample.fs 2 = true /\
  readData Sample.BlockSize Sample.fs 2 0 (Sample.buffer 16 7) 10 = Fault /\
  readData Sample.BlockSize Sample.fs 2 0 (Sample.buffer 16 7) 10
    <> Ok (mk_outcome (-1) (Sample.buffer 16 7) []).
Proof.
  apply (readData_inode_one_past_end Sample.BlockSize Sample.fs 0
           (Sample.buffer 16 7) 10).
  reflexivity.
Defined.

(** Offset 11 in the ten-byte file: 2^32 - 1 bytes remain. *)
Lemma readData_bytesRemaining_underflow_witness :
  bytesRemaining (mk_inode 10 1 [0]) 11 = 2 ^ 32 - (11 - 10).
Proof.
  apply (readData_bytesRemaining_underflow Sample.BlockSize Sample.fs 0
           (mk_inode 10 1 [0]) 11 (Sample.buffer 16 7) 10).
  - cbn. lia.
  - reflexivity.
  - unfold is_u32. cbn. lia.
  - unfold is_u32. lia.
  - cbn. lia.
Defined.


(** Reading 20 bytes of the ten-byte file returns 10. *)
Lemma readData_within_length_witness :
  readData Sample.BlockSize Sample.fs 0 0 (Sample.buffer 20 7) 20
    = Ok (mk_outcome 10 (Sample.bytes "0123456789" ++ Sample.buffer 10 7)
            [mk_call 0 0 0 10 20 10]) /\
  (0 <= 10 -> 10 <= 20).
Proof.
  assert (Hrun : readData Sample.BlockSize Sample.fs 0 0 (Sample.buffer 20 7) 20
                 = Ok (mk_outcome 10
                         (Sample.bytes "0123456789" ++ Sample.buffer 10 7)
                         [mk_call 0 0 0 10 20 10]))
    by (vm_compute; reflexivity).
  split; [exact Hrun |].
  apply (readData_within_length Sample.BlockSize Sample.fs 0 0
           (Sample.buffer 20 7) 20 _ ltac:(unfold Sample.BlockSize; lia)
           ltac:(unfold is_u32; lia) Hrun).
Defined.

(** The directory of the concrete image, read with [len = 32]: three
    names, then the terminal state. *)
Lemma readDir_iteration_witness :
  exists buf' data',
    readDir_seq Sample.fs (mk_fd DIRECTORY 0 0 3) (Sample.buffer 33 7) 32
      [0; 5; 9]
    = Ok (map (dir_entry 32) (take 3 (dentries Sample.fs)), buf', data') /\
    fd_idx data' = Z.of_nat 3 /\ fd_max data' = numDentries Sample.fs.
Proof.
  destruct (readDir_iteration Sample.mkFilename Sample.fs
              (Sample.bytes "." ++ [0]) Sample.fresh (mk_fd DIRECTORY 0 0 3)
              sample_initialised)
    as (_ & _ & Hseq & _).
  - cbn. lia.
  - vm_compute. reflexivity.
  - reflexivity.
  - apply (Hseq (Sample.buffer 33 7) 32 [0; 5; 9]).
    + cbn. lia.
    + exact sample_names_fit.
    + cbn. lia.
Defined.

(** ** Instances of the further properties *)

Lemma sample_inode0_ok :
  inode_ok Sample.BlockSize Sample.fs (mk_inode 10 1 [0]).
Proof.
  split; unfold is_u32, Sample.BlockSize; cbn [inode_size inode_numDataBlocks
    inode_datablocks length]; try lia.
  intros [|j] id Hid Hj; [| lia].
  injection Hid as <-. split; [cbn; lia | vm_compute; reflexivity].
Defined.

Lemma readDentry_by_index_bounds_witness :
  readDentry_by_index Sample.fs 4 (mk_dentry [] 0 0)
    = Ok (-1, mk_dentry [] 0 0) /\
  readDentry_by_index Sample.fs 3 (mk_dentry [] 0 0) = Fault.
Proof.
  destruct (readDentry_by_index_bounds Sample.fs 4 (mk_dentry [] 0 0)
              eq_refl) as (Habove & _ & _).
  destruct (readDentry_by_index_bounds Sample.fs 3 (mk_dentry [] 0 0)
              eq_refl) as (_ & _ & Hat).
  split; [apply Habove; cbn; lia | apply Hat; reflexivity].
Defined.

Lemma readDentry_by_name_agrees_with_open_witness :
  exists data,
    open Sample.mkFilename Sample.fs (Sample.bytes "hello.txt" ++ [0])
      Sample.fresh = Ok (Some data) /\
    fd_filetype data = NORMAL_FILE /\
    (NORMAL_FILE <> DIRECTORY -> fd_inode data = 0).
Proof.
  apply (proj2 (readDentry_by_name_agrees_with_open Sample.mkFilename
                  Sample.fs (Sample.bytes "hello.txt" ++ [0])
                  (mk_dentry [] 0 0) Sample.fresh)
           (mk_dentry (Sample.char_array 32 "hello.txt") NORMAL_FILE 0)).
  vm_compute. reflexivity.
Defined.

Lemma index_last_write_wins_witness :
  0 <= 1 /\
  (exists d, dentries Sample.fs !! Z.to_nat 1 = Some d /\
             Sample.mkFilename (dentry_filename d) = Sample.bytes "hello.txt") /\
  forall (p : nat) d,
    dentries Sample.fs !! p = Some d ->
    Sample.mkFilename (dentry_filename d) = Sample.bytes "hello.txt" ->
    Z.of_nat p <= 1.
Proof.
  apply (index_last_write_wins Sample.mkFilename Sample.fs
           (Sample.bytes "hello.txt") 1 sample_initialised).
  vm_compute. reflexivity.
Defined.

Lemma fstat_spec_witness :
  fstat Sample.S_IFDIR Sample.S_IFCHR Sample.S_IFREG Sample.fs
    (mk_fd NORMAL_FILE 0 0 0) (mk_stat 0 0)
  = Ok (0, mk_stat Sample.S_IFREG 10).
Proof.
  destruct (fstat_spec Sample.S_IFDIR Sample.S_IFCHR Sample.S_IFREG Sample.fs
              (mk_fd NORMAL_FILE 0 0 0) (mk_stat 0 0))
    as (_ & _ & _ & Hsize & _).
  apply Hsize; reflexivity.
Defined.

Lemma readDir_cursor_and_frame_witness :
  fd_idx (mk_fd DIRECTORY 0 2 3) = fd_idx (mk_fd DIRECTORY 0 1 3) + 1 /\
  drop (Z.to_nat 4) (Sample.bytes "hellXY" ++ [0])
    = drop (Z.to_nat 4) (Sample.bytes "abcdXY" ++ [0]).
Proof.
  destruct (readDir_cursor_and_frame Sample.fs (mk_fd DIRECTORY 0 1 3) 0
              (Sample.bytes "abcdXY" ++ [0]) 4 6
              (Sample.bytes "hellXY" ++ [0]) (mk_fd DIRECTORY 0 2 3))
    as (_ & _ & _ & _ & _ & _ & Hframe).
  - cbn. lia.
  - lia.
  - reflexivity.
  - split; [reflexivity | exact Hframe].
Defined.

Lemma readDir_name_too_long_witness :
  readDir Sample.fs (mk_fd DIRECTORY 0 1 3) 0 (Sample.bytes "abcdXY" ++ [0]) 4
  = (n <- strlen (drop (Z.to_nat 4) (Sample.bytes "abcdXY" ++ [0])) ;;
     Ok (to_int32 (4 + n),
         take (Z.to_nat 4) (Sample.char_array 32 "hello.txt")
           ++ drop (Z.to_nat 4) (Sample.bytes "abcdXY" ++ [0]),
         mk_fd DIRECTORY 0 (1 + 1) 3)).
Proof.
  apply (readDir_name_too_long Sample.fs (mk_fd DIRECTORY 0 1 3) 0
           (Sample.bytes "abcdXY" ++ [0]) 4
           (mk_dentry (Sample.char_array 32 "hello.txt") NORMAL_FILE 0)).
  - cbn. lia.
  - cbn. lia.
  - reflexivity.
  - cbn [dentry_filename]. eval_lengths. lia.
  - vm_compute. repeat (apply Forall_cons_2; [discriminate |]).
    apply Forall_nil_2.
  - eval_lengths. lia.
Defined.

(** A read of no bytes of "hello.txt" passes the tests and returns 0
    after one call; on the image with the bad block list, at the block
    whose id is 7, it returns -1 with no call. *)
Lemma readData_zero_length_witness :
  readData Sample.BlockSize Sample.fs 0 0 (Sample.buffer 16 7) 0
    = Ok (mk_outcome 0 (Sample.buffer 16 7)
            [mk_call 0 (0 mod Sample.BlockSize) 0 0 0
               (bytesRemaining (mk_inode 10 1 [0]) 0)]) /\
  readData Sample.BlockSize Sample.fs_bad 1 4096 (Sample.buffer 16 7) 0
    = Ok (mk_outcome (-1) (Sample.buffer 16 7) []).
Proof.
  split.
  - destruct (readData_zero_length Sample.BlockSize Sample.fs 0 0
                (Sample.buffer 16 7)) as (_ & Hin & _);
      [unfold Sample.BlockSize; lia |].
    destruct (Hin (mk_inode 10 1 [0])) as (_ & Hblock);
      [cbn; lia | reflexivity |].
    destruct (Hblock 0) as (_ & _ & Hok);
      [vm_compute; reflexivity | reflexivity |].
    apply Hok; [cbn; lia | vm_compute; reflexivity].
  - destruct (readData_zero_length Sample.BlockSize Sample.fs_bad 1 4096
                (Sample.buffer 16 7)) as (_ & Hin & _);
      [unfold Sample.BlockSize; lia |].
    destruct (Hin (mk_inode 8192 2 [2; 7])) as (_ & Hblock);
      [cbn; lia | reflexivity |].
    destruct (Hblock 7) as (Hbad & _ & _);
      [vm_compute; reflexivity | reflexivity |].
    apply Hbad. cbn. lia.
Defined.

Lemma readData_block_offsets_witness :
  Forall (fun c => call_offset c + call_len c <= Sample.BlockSize)
    [mk_call 0 0 0 10 20 10].
Proof.
  apply (readData_block_offsets Sample.BlockSize Sample.fs 0 0
           (Sample.buffer 20 7) 20
           (mk_outcome 10 (Sample.bytes "0123456789" ++ Sample.buffer 10 7)
              [mk_call 0 0 0 10 20 10])).
  - unfold Sample.BlockSize. lia.
  - unfold is_u32. lia.
  - vm_compute. reflexivity.
  - reflexivity.
Defined.

Lemma readData_frame_witness :
  length (Sample.bytes "0123456789" ++ Sample.buffer 20 7)
    = length (Sample.buffer 30 7) /\
  drop (Z.to_nat 20) (Sample.bytes "0123456789" ++ Sample.buffer 20 7)
    = drop (Z.to_nat 20) (Sample.buffer 30 7).
Proof.
  apply (readData_frame Sample.BlockSize Sample.fs 0 0 (Sample.buffer 30 7) 20
           (mk_outcome 10 (Sample.bytes "0123456789" ++ Sample.buffer 20 7)
              [mk_call 0 0 0 10 20 10])).
  - unfold Sample.BlockSize. lia.
  - unfold is_u32. lia.
  - eval_lengths. lia.
  - vm_compute. reflexivity.
Defined.

(** Four bytes from offset 3 of "hello.txt". *)
Lemma readData_content_witness :
  exists calls,
    readData Sample.BlockSize Sample.fs 0 3 (Sample.buffer 8 7) 4 =
      Ok (mk_outcome (to_int32 (Z.min 4 (10 - 3)))
            (file_bytes Sample.BlockSize Sample.fs (mk_inode 10 1 [0]) 3
               (Z.min 4 (10 - 3))
             ++ drop (Z.to_nat (Z.min 4 (10 - 3))) (Sample.buffer 8 7))
            calls).
Proof.
  apply (readData_content Sample.BlockSize Sample.fs 0 (mk_inode 10 1 [0]) 3
           (Sample.buffer 8 7) 4).
  - unfold Sample.BlockSize. lia.
  - unfold Sample.BlockSize. cbn. lia.
  - cbn. lia.
  - reflexivity.
  - exact sample_inode0_ok.
  - cbn. lia.
  - unfold is_u32. lia.
  - eval_lengths. lia.
  - right. vm_compute. discriminate.
Defined.

Lemma read_whole_file_witness :
  10 = inode_size (mk_inode 10 1 [0]) /\
  exists calls,
    read Sample.BlockSize Sample.fs (mk_fd NORMAL_FILE 0 0 0) 0
      (Sample.buffer 16 7) 10 =
      Ok (mk_outcome (to_int32 10)
            (file_bytes Sample.BlockSize Sample.fs (mk_inode 10 1 [0]) 0 10
               ++ drop (Z.to_nat 10) (Sample.buffer 16 7))
            calls,
          mk_fd NORMAL_FILE 0 0 0).
Proof.
  apply (read_whole_file Sample.BlockSize Sample.fs (mk_fd NORMAL_FILE 0 0 0)
           (mk_inode 10 1 [0]) (Sample.buffer 16 7) 10).
  - unfold Sample.BlockSize. lia.
  - unfold Sample.BlockSize. cbn. lia.
  - reflexivity.
  - reflexivity.
  - reflexivity.
  - exact sample_inode0_ok.
  - reflexivity.
  - eval_lengths. lia.
Defined.

Lemma lookup_by_own_name_witness :
  readDentry_by_name Sample.mkFilename Sample.fs
    (Sample.bytes "long.bin" ++ [0]) (mk_dentry [] 0 0)
  = Ok (0, mk_dentry (Sample.char_array 32 "long.bin") NORMAL_FILE 1).
Proof.
  apply (lookup_by_own_name Sample.mkFilename Sample.fs 2
           (mk_dentry (Sample.char_array 32 "long.bin") NORMAL_FILE 1)
           (Sample.bytes "long.bin" ++ [0]) (mk_dentry [] 0 0) Sample.fresh
           sample_initialised).
  - refine (bool_decide_unpack _ _). vm_compute. exact I.
  - reflexivity.
  - vm_compute. reflexivity.
Defined.

(** Reading "long.bin" of the image with the bad block list: the first
    block arrives, then -1. *)
Lemma readData_bad_block_after_copies_witness :
  exists calls,
    readData Sample.BlockSize Sample.fs_bad 1 (0 * Sample.BlockSize)
      (Sample.buffer 4100 7) 4100 =
      Ok (mk_outcome (-1)
            (file_bytes Sample.BlockSize Sample.fs_bad (mk_inode 8192 2 [2; 7])
               (0 * Sample.BlockSize) ((Z.of_nat 1 - 0) * Sample.BlockSize)
             ++ drop (Z.to_nat ((Z.of_nat 1 - 0) * Sample.BlockSize))
                  (Sample.buffer 4100 7))
            calls).
Proof.
  apply (readData_bad_block_after_copies Sample.BlockSize Sample.fs_bad 1
           (mk_inode 8192 2 [2; 7]) 1 7 0 (Sample.buffer 4100 7) 4100).
  - unfold Sample.BlockSize. lia.
  - unfold Sample.BlockSize. cbn. lia.
  - cbn. lia.
  - reflexivity.
  - unfold is_u32. cbn. lia.
  - unfold is_u32. cbn. lia.
  - cbn. lia.
  - unfold Sample.BlockSize. cbn. lia.
  - intros [|j] id Hid Hj; [| lia].
    injection Hid as <-. split; [cbn; lia | vm_compute; reflexivity].
  - reflexivity.
  - left. cbn. lia.
  - lia.
  - unfold Sample.BlockSize. lia.
  - unfold Sample.buffer. rewrite repeat_length. lia.
Defined.


Lemma readData_past_last_block_witness :
  readData Sample.BlockSize Sample.fs 0 4096 (Sample.buffer 16 7) 16
  = Ok (mk_outcome 0 (Sample.buffer 16 7) []).
Proof.
  apply (readData_past_last_block Sample.BlockSize Sample.fs 0
           (mk_inode 10 1 [0]) 4096 (Sample.buffer 16 7) 16).
  - unfold Sample.BlockSize. lia.
  - cbn. lia.
  - reflexivity.
  - unfold Sample.BlockSize. cbn. lia.
Defined.
